(** * Verlet cloth: the simulation engine of [src/main.js]

    A shallow embedding of the model built by [makeModel] (grid topology,
    [tick], [removePoint], [removeJoin]) and of the geometry helpers
    ([difference], [pointLength], [det], [lineIntersectsLine]).

    JavaScript numbers are IEEE 754 binary64 values; they are modelled by
    the Standard Library's [spec_float] at precision 53 and maximal exponent
    1024, so that NaN, the infinities, the signed zeros and rounding are the
    ones the program computes with. *)

From Stdlib Require Import ZArith List Bool Lia String Ascii.
From Stdlib Require Import Floats.SpecFloat Numbers.DecimalString.
From stdpp Require Import base list.

Open Scope Z_scope.

(** ** JavaScript numbers *)

Module Num.

Definition prec : Z := 53.
Definition emax : Z := 1024.

Definition number : Type := spec_float.

Definition NaN : number := S754_nan.
Definition Infinity : number := S754_infinity false.

Definition add (a b : number) : number := SFadd prec emax a b.
Definition sub (a b : number) : number := SFsub prec emax a b.
Definition mul (a b : number) : number := SFmul prec emax a b.
Definition div (a b : number) : number := SFdiv prec emax a b.
Definition neg (a : number) : number := SFopp a.
Definition sqrt (a : number) : number := SFsqrt prec emax a.

(** An integer literal, or a loop counter used as a number. *)
Definition of_Z (n : Z) : number := binary_normalize prec emax n 0 false.

(** [a <= b]: false as soon as one side is NaN. *)
Definition le (a b : number) : bool :=
  match SFcompare a b with
  | Some Lt | Some Eq => true
  | _ => false
  end.

(** [a >= b]: false as soon as one side is NaN. *)
Definition ge (a b : number) : bool :=
  match SFcompare a b with
  | Some Gt | Some Eq => true
  | _ => false
  end.

(** [Math.min(a, b)]: NaN if either is NaN, and -0 is below +0. *)
Definition min (a b : number) : number :=
  match a, b with
  | S754_nan, _ | _, S754_nan => S754_nan
  | S754_zero sa, S754_zero sb => S754_zero (sa || sb)
  | _, _ => if le a b then a else b
  end.

(** [Math.max(a, b)]: NaN if either is NaN, and +0 is above -0. *)
Definition max (a b : number) : number :=
  match a, b with
  | S754_nan, _ | _, S754_nan => S754_nan
  | S754_zero sa, S754_zero sb => S754_zero (sa && sb)
  | _, _ => if le a b then b else a
  end.

Definition is_nan (a : number) : bool :=
  match a with S754_nan => true | _ => false end.

Definition is_zero (a : number) : bool :=
  match a with S754_zero _ => true | _ => false end.

Definition is_infinite (a : number) : bool :=
  match a with S754_infinity _ => true | _ => false end.

End Num.

Import Num.

Declare Scope num_scope.
Delimit Scope num_scope with num.
Bind Scope num_scope with number.
Infix "+" := add : num_scope.
Infix "-" := sub : num_scope.
Infix "*" := mul : num_scope.
Infix "/" := div : num_scope.
Infix "<=?" := le : num_scope.
Infix ">=?" := ge : num_scope.

(** The numeric literals of the source. *)
Definition n0 : number := S754_zero false.
Definition n1 : number := of_Z 1.
Definition n2 : number := of_Z 2.
Definition n10 : number := of_Z 10.
Definition n30 : number := of_Z 30.
Definition n0_01 : number := (n1 / of_Z 100)%num.
(** [0.1] and [0.8]: the doubles nearest to 1/10 and 8/10. *)
Definition n0_1 : number := S754_finite false 7205759403792794 (-56).
Definition n0_8 : number := S754_finite false 7205759403792794 (-53).

(** Two numbers that compare alike: the same number, or two zeros (of
    either sign). *)
Definition same_value (a b : number) : Prop :=
  a = b \/ (is_zero a = true /\ is_zero b = true).

(** A number that is NaN or infinite. *)
Definition not_finite (a : number) : bool := is_nan a || is_infinite a.

(** ** Geometry helpers *)

(** A plain [{x, y}] object. *)
Record Point : Type := mkPoint { x : number; y : number }.

Definition difference (p0 p1 : Point) : Point :=
  {| x := (x p0 - x p1)%num; y := (y p0 - y p1)%num |}.

Definition pointLength (point : Point) : number :=
  sqrt (x point * x point + y point * y point)%num.

(** The determinant [| a b ; c d |]. *)
Definition det (a b c d : number) : number := (a * d - b * c)%num.

Section LineIntersectsLine.
Variables x1 y1 x2 y2 x3 y3 x4 y4 : number.

Definition denominator : number :=
  det (x1 - x2) (y1 - y2) (x3 - x4) (y3 - y4).

Definition intersection_x : number :=
  (det (det x1 y1 x2 y2) (x1 - x2) (det x3 y3 x4 y4) (x3 - x4)
   / det (x1 - x2) (y1 - y2) (x3 - x4) (y3 - y4))%num.

Definition intersection_y : number :=
  (det (det x1 y1 x2 y2) (y1 - y2) (det x3 y3 x4 y4) (y3 - y4)
   / det (x1 - x2) (y1 - y2) (x3 - x4) (y3 - y4))%num.

(** The eight bounding-box checks, in source order. *)
Definition box_checks (x y : number) : list bool :=
  [ (min x1 x2 <=? x)%num; (max x1 x2 >=? x)%num;
    (min x3 x4 <=? x)%num; (max x3 x4 >=? x)%num;
    (min y1 y2 <=? y)%num; (max y1 y2 >=? y)%num;
    (min y3 y4 <=? y)%num; (max y3 y4 >=? y)%num ].

Definition lineIntersectsLine : bool :=
  let x := intersection_x in
  let y := intersection_y in
  (min x1 x2 <=? x)%num && (max x1 x2 >=? x)%num &&
  (min x3 x4 <=? x)%num && (max x3 x4 >=? x)%num &&
  (min y1 y2 <=? y)%num && (max y1 y2 >=? y)%num &&
  (min y3 y4 <=? y)%num && (max y3 y4 >=? y)%num.
End LineIntersectsLine.

(** ** Errors

    The only exception the engine can raise is the [TypeError] of reading a
    property of [undefined]. *)

Inductive js_error : Type := TypeError.

Definition result (A : Type) : Type := (js_error + A)%type.

Definition ret {A} (a : A) : result A := inr a.
Definition throw {A} (e : js_error) : result A := inl e.
Definition bind {A B} (c : result A) (k : A -> result B) : result B :=
  match c with
  | inl e => inl e
  | inr a => k a
  end.

Notation "x <- c ;; k" := (bind c (fun x => k))
  (at level 100, c at next level, right associativity).

(** [for (let i = start; i < start + count; i++) body] over a threaded
    state. *)
Fixpoint for_loop {S : Type} (start count : nat)
    (body : nat -> S -> result S) (s : S) : result S :=
  match count with
  | O => ret s
  | Datatypes.S k => s' <- body start s ;; for_loop (Datatypes.S start) k body s'
  end.

(** ** The object store

    Points are mutable objects shared between the [points] array and the
    joins; a reference is the index of the object in the store.  A join is
    never mutated, so it is a value carrying its allocation number [jid],
    which stands for its identity under [===]. *)

Abbreviation ref := nat (only parsing).

Record Particle : Type := mkParticle {
  xy :> Point;
  px : number;
  py : number;
  isFixed : bool
}.

Record Join : Type := mkJoin {
  jid : nat;
  from : ref;
  to : ref;
  length : number
}.

Record Model : Type := mkModel {
  heap : list Particle;
  points : list ref;
  joins : list Join
}.

Definition ITERATIONS : nat := 2.

Definition set_xy (p : Particle) (nx ny : number) : Particle :=
  {| xy := {| x := nx; y := ny |}; px := px p; py := py p; isFixed := isFixed p |}.

Definition set_prev (p : Particle) (npx npy : number) : Particle :=
  {| xy := xy p; px := npx; py := npy; isFixed := isFixed p |}.

(** ** makeModel *)

Section MakeModel.
Variables width height : Z.

(** [makeJoin(from, to)]: either argument may be [undefined], and reading
    its [x] then throws. *)
Definition makeJoin (h : list Particle) (id : nat) (from to : option ref)
  : result Join :=
  match from, to with
  | Some f, Some t =>
      match h !! f, h !! t with
      | Some pf, Some pt =>
          ret {| jid := id; from := f; to := t;
                 length := pointLength (difference (xy pf) (xy pt)) |}
      | _, _ => throw TypeError
      end
  | _, _ => throw TypeError
  end.

Definition newPoint (r c : nat) : Particle :=
  let y := (of_Z (Z.of_nat r) * n1 / (of_Z height - n1))%num in
  let x := (of_Z (Z.of_nat c) * n1 / (of_Z width - n1))%num in
  {| xy := {| x := x; y := y |}; px := x; py := y;
     isFixed := Nat.eqb r 0 |}.

(** [points.push(point)] for a freshly allocated object. *)
Definition pushPoint (p : Particle) (s : list Particle * list ref)
  : list Particle * list ref :=
  (fst s ++ [p], snd s ++ [List.length (fst s)]).

Definition makePoints : result (list Particle * list ref) :=
  for_loop 0 (Z.to_nat height) (fun r s =>
    for_loop 0 (Z.to_nat width) (fun c s =>
      ret (pushPoint (newPoint r c) s)) s) ([], []).

(** [points[r * width + c]], [undefined] outside the array. *)
Definition pointByPosition (pts : list ref) (r c : nat) : option ref :=
  let i := Z.of_nat r * width + Z.of_nat c in
  if i <? 0 then None else pts !! Z.to_nat i.

Definition pushJoin (h : list Particle) (from to : option ref)
    (js : list Join) : result (list Join) :=
  j <- makeJoin h (List.length js) from to ;; ret (js ++ [j]).

Definition rowJoins (h : list Particle) (pts : list ref)
    (js : list Join) : result (list Join) :=
  for_loop 0 (Z.to_nat height) (fun r js =>
    for_loop 0 (Z.to_nat (width - 1)) (fun c js =>
      let from := pointByPosition pts r c in
      js <- pushJoin h from (pointByPosition pts r (c + 1)) js ;;
      if Z.of_nat r <? height - 1 then
        if Nat.eqb ((r + c) mod 2) 1 then
          pushJoin h from (pointByPosition pts (r + 1) (c + 1)) js
        else
          pushJoin h (pointByPosition pts r (c + 1))
                     (pointByPosition pts (r + 1) c) js
      else ret js) js) js.

Definition columnJoins (h : list Particle) (pts : list ref)
    (js : list Join) : result (list Join) :=
  for_loop 0 (Z.to_nat width) (fun c js =>
    for_loop 0 (Z.to_nat (height - 1)) (fun r js =>
      pushJoin h (pointByPosition pts r c)
                 (pointByPosition pts (r + 1) c) js) js) js.

Definition makeModel : result Model :=
  s <- makePoints ;;
  js <- rowJoins (fst s) (snd s) [] ;;
  js <- columnJoins (fst s) (snd s) js ;;
  ret {| heap := fst s; points := snd s; joins := js |}.
End MakeModel.

(** ** tick *)

(** The body of the integration loop for one particle. *)
Definition integrate (force : Point) (deltaTime : number)
    (h : list Particle) (particle : ref) : list Particle :=
  match h !! particle with
  | Some p =>
      if isFixed p then h
      else
        let acceleration := {| x := x force; y := y force |} in
        let old_x := x p in
        let old_y := y p in
        let nx := (n2 * x p - px p
                   + x acceleration * (deltaTime * deltaTime))%num in
        let ny := (n2 * y p - py p
                   + y acceleration * (deltaTime * deltaTime))%num in
        <[particle := set_prev (set_xy p nx ny) old_x old_y]> h
  | None => h
  end.

(** The body of the relaxation loop for one join.  [join.to] is read again
    after [join.from] has been written: both may be the same object. *)
Definition relaxJoin (h : list Particle) (join : Join) : list Particle :=
  match h !! from join, h !! to join with
  | Some pf, Some pt =>
      let diff := difference (xy pf) (xy pt) in
      let diffLen := pointLength diff in
      let factor := ((length join - diffLen) / diffLen / n2)%num in
      let offset := {| x := (x diff * factor)%num; y := (y diff * factor)%num |} in
      let h1 :=
        if negb (isFixed pf)
        then <[from join := set_xy pf (x pf + x offset)%num (y pf + y offset)%num]> h
        else h in
      match h1 !! to join with
      | Some pt' =>
          if negb (isFixed pt')
          then <[to join := set_xy pt' (x pt' - x offset)%num (y pt' - y offset)%num]> h1
          else h1
      | None => h1
      end
  | _, _ => h
  end.

Definition relaxAll (js : list Join) (h : list Particle) : list Particle :=
  fold_left relaxJoin js h.

(** [tick(deltaTime)], where [random] is the value [Math.random()] returns
    in this call. *)
Definition tick (deltaTime random : number) (m : Model) : Model :=
  let deltaTime := min deltaTime (n1 / n30)%num in
  let force := {| x := (random * n0_1)%num; y := n0_8 |} in
  let h := fold_left (integrate force deltaTime) (points m) (heap m) in
  let h := Nat.iter ITERATIONS (relaxAll (joins m)) h in
  {| heap := h; points := points m; joins := joins m |}.

(** ** removePoint and removeJoin *)

Definition removePoint (point : ref) (m : Model) : Model :=
  {| heap := heap m;
     points := List.filter (fun each => negb (Nat.eqb each point)) (points m);
     joins := List.filter (fun each => negb (Nat.eqb (from each) point)
                                       && negb (Nat.eqb (to each) point))
                          (joins m) |}.

(** The [in] operator: [key in array].  The left operand is turned into a
    property key; a plain object becomes the string below.  An array has the
    index keys below its length, ["length"], and the names it inherits from
    [Array.prototype] and [Object.prototype]. *)
Definition object_property_key : string := "[object Object]".

Definition index_key (i : nat) : string :=
  NilZero.string_of_uint (Nat.to_uint i).

Definition inherited_keys : list string :=
  [ "constructor"; "at"; "concat"; "copyWithin"; "entries"; "every"; "fill";
    "filter"; "find"; "findIndex"; "findLast"; "findLastIndex"; "flat";
    "flatMap"; "forEach"; "includes"; "indexOf"; "join"; "keys";
    "lastIndexOf"; "map"; "pop"; "push"; "reduce"; "reduceRight"; "reverse";
    "shift"; "slice"; "some"; "sort"; "splice"; "toLocaleString";
    "toReversed"; "toSorted"; "toSpliced"; "toString"; "unshift"; "values";
    "with"; "hasOwnProperty"; "isPrototypeOf"; "propertyIsEnumerable";
    "valueOf"; "__proto__"; "__defineGetter__"; "__defineSetter__";
    "__lookupGetter__"; "__lookupSetter__" ]%string.

Definition has_property {A : Type} (key : string) (array : list A) : bool :=
  existsb (String.eqb key) (map index_key (seq 0 (List.length array)))
  || String.eqb key "length"
  || existsb (String.eqb key) inherited_keys.

(** The number of joins that use [point]: the [reduce] of the source. *)
Definition joinCount (js : list Join) (point : ref) : nat :=
  fold_left (fun count join =>
               if Nat.eqb (from join) point || Nat.eqb (to join) point
               then (count + 1)%nat else count) js 0%nat.

Definition removeJoin (joinToRemove : Join) (m : Model) : Model :=
  let joins := List.filter (fun each => negb (Nat.eqb (jid each) (jid joinToRemove)))
                           (joins m) in
  let pointsUsingJoin :=
    List.filter (fun point => Nat.eqb point (from joinToRemove)
                              || Nat.eqb point (to joinToRemove)) (points m) in
  let pointsToDelete :=
    List.filter (fun point => negb (Nat.eqb (joinCount joins point) 0))
                pointsUsingJoin in
  {| heap := heap m;
     points := List.filter (fun point =>
                              negb (has_property object_property_key pointsToDelete))
                           (points m);
     joins := joins |}.

(** ** Tearing: the pointer-move handler *)

Definition joinsToRemove (prevPoint txPoint : Point) (m : Model) : list Join :=
  List.filter (fun join =>
      match heap m !! from join, heap m !! to join with
      | Some f, Some t =>
          lineIntersectsLine (x prevPoint) (y prevPoint) (x txPoint) (y txPoint)
                             (x (xy f)) (y (xy f)) (x (xy t)) (y (xy t))
      | _, _ => false
      end) (joins m).

(** [joinsToRemove.forEach((join) => model.removeJoin(join))]. *)
Definition removeJoins (js : list Join) (m : Model) : Model :=
  fold_left (fun m join => removeJoin join m) js m.

(** The body of the pointer-move handler while dragging: a move of at most
    [0.01] is ignored. *)
Definition tear (prevPoint txPoint : Point) (m : Model) : Model :=
  if (pointLength (difference txPoint prevPoint) <=? n0_01)%num then m
  else removeJoins (joinsToRemove prevPoint txPoint m) m.

(** A sequence of engine operations, as the frame loop and the pointer
    handler issue them. *)
Inductive operation : Type :=
  | Tick (deltaTime random : number)
  | RemoveJoin (join : Join)
  | RemovePoint (point : ref)
  | Tear (prevPoint txPoint : Point).

Definition perform (o : operation) (m : Model) : Model :=
  match o with
  | Tick deltaTime random => tick deltaTime random m
  | RemoveJoin join => removeJoin join m
  | RemovePoint point => removePoint point m
  | Tear prevPoint txPoint => tear prevPoint txPoint m
  end.

Definition run (ops : list operation) (m : Model) : Model :=
  fold_left (fun m o => perform o m) ops m.

(** What an operation may do to one stored particle: the [isFixed] flag
    stays, and a fixed particle stays as a whole. *)
Definition particle_frame (p p' : Particle) : Prop :=
  isFixed p' = isFixed p /\ (isFixed p = true -> p' = p).

(** The same, for the whole store: no object appears or disappears. *)
Definition heap_frame (h h' : list Particle) : Prop :=
  Forall2 particle_frame h h'.

(** ** The grid, described by rows and columns

    The lists below describe a [W] x [H] grid declaratively; they are what
    the loops of [makeModel] are compared with. *)

Section GridDescription.
Variables W H : nat.

(** The index of the point of row [r] and column [c]. *)
Definition idx (r c : nat) : nat := (r * W + c)%nat.

Definition ends (j : Join) : nat * nat := (from j, to j).

Definition horizontal (r c : nat) : nat * nat := (idx r c, idx r (c + 1)).
Definition vertical (r c : nat) : nat * nat := (idx r c, idx (r + 1) c).
Definition shear (r c : nat) : nat * nat :=
  if Nat.odd (r + c) then (idx r c, idx (r + 1) (c + 1))
  else (idx r (c + 1), idx (r + 1) c).

(** The order the joins are stored in: cell by cell, the horizontal join
    of a cell and then its shear join. *)
Definition cellJoins (r c : nat) : list (nat * nat) :=
  horizontal r c :: (if (r + 1 <? H)%nat then [shear r c] else []).

Definition verticalJoins : list (nat * nat) :=
  flat_map (fun c => map (fun r => vertical r c) (seq 0 (H - 1))) (seq 0 W).

Definition storedOrder : list (nat * nat) :=
  flat_map (fun r => flat_map (cellJoins r) (seq 0 (W - 1))) (seq 0 H)
  ++ verticalJoins.

(** The order the specification states: all horizontal joins, then the
    shear joins, then all vertical joins. *)
Definition horizontalJoins : list (nat * nat) :=
  flat_map (fun r => map (horizontal r) (seq 0 (W - 1))) (seq 0 H).

Definition shearJoins : list (nat * nat) :=
  flat_map (fun r => map (shear r) (seq 0 (W - 1))) (seq 0 (H - 1)).

Definition specifiedOrder : list (nat * nat) :=
  horizontalJoins ++ shearJoins ++ verticalJoins.

(** The kind of a join, read off the grid positions of its two ends. *)
Definition rowOf (i : nat) : nat := (i / W)%nat.
Definition colOf (i : nat) : nat := (i mod W)%nat.

Definition isHorizontal (e : nat * nat) : bool :=
  Nat.eqb (rowOf (fst e)) (rowOf (snd e)).
Definition isVertical (e : nat * nat) : bool :=
  Nat.eqb (colOf (fst e)) (colOf (snd e)).
Definition isDiagonal (e : nat * nat) : bool :=
  negb (isHorizontal e) && negb (isVertical e).
End GridDescription.

(** The particles [makeModel] allocates, row after row. *)
Definition gridParticles (width height : Z) : list Particle :=
  flat_map (fun r => map (newPoint width height r) (seq 0 (Z.to_nat width)))
           (seq 0 (Z.to_nat height)).

(** The points of [m] whose object is fixed. *)
Definition isFixedAt (h : list Particle) (point : ref) : bool :=
  match h !! point with
  | Some p => isFixed p
  | None => false
  end.

Definition fixedPoints (m : Model) : list ref :=
  List.filter (isFixedAt (heap m)) (points m).

Definition countJoins (kind : nat * nat -> bool) (m : Model) : nat :=
  List.length (List.filter kind (map ends (joins m))).

(** ** Concrete topologies used below *)

Definition empty_model : Model := {| heap := []; points := []; joins := [] |}.

(** The model [makeModel(width, height)] returns, or the empty one if it
    throws. *)
Definition grid (width height : Z) : Model :=
  match makeModel width height with
  | inr m => m
  | inl _ => empty_model
  end.

(** The joins of [m] that touch [point]. *)
Definition joinsTouching (point : ref) (m : Model) : list Join :=
  List.filter (fun j => Nat.eqb (from j) point || Nat.eqb (to j) point) (joins m).

Definition n0_5 : number := (n1 / n2)%num.

(** One join of rest length 1 between A, free at (0,0), and B, moved to
    (2,0). *)
Definition stretched_heap : list Particle :=
  [ {| xy := {| x := n0; y := n0 |}; px := n0; py := n0; isFixed := false |};
    {| xy := {| x := n2; y := n0 |}; px := n1; py := n0; isFixed := false |} ].

Definition stretched_join : Join :=
  {| jid := 0; from := 0; to := 1; length := n1 |}.

(** ** Well-formed topologies

    What [makeModel] establishes and every operation keeps: the points are
    distinct objects of the store, the joins are distinct objects, and the
    two ends of a join are different points of the [points] array. *)

Definition join_ok (m : Model) (j : Join) : Prop :=
  from j <> to j /\ In (from j) (points m) /\ In (to j) (points m).

Definition well_formed (m : Model) : Prop :=
  List.NoDup (points m) /\
  Forall (fun p => (p < List.length (heap m))%nat) (points m) /\
  List.NoDup (map jid (joins m)) /\
  Forall (join_ok m) (joins m).

(** [join] is one of the joins of the batch [js], as objects. *)
Definition inBatch (js : list Join) (join : Join) : bool :=
  existsb (fun each => Nat.eqb (jid each) (jid join)) js.

(** Does the segment from [a] to [b] cross [join], at the positions of the
    store [h]?  The callback of the [filter] in the pointer-move handler. *)
Definition crosses (h : list Particle) (a b : Point) (join : Join) : bool :=
  match h !! from join, h !! to join with
  | Some f, Some t =>
      lineIntersectsLine (x a) (y a) (x b) (y b)
                         (x (xy f)) (y (xy f)) (x (xy t)) (y (xy t))
  | _, _ => false
  end.

(** One Verlet step of a particle that is not fixed. *)
Definition verlet (force : Point) (deltaTime : number) (p : Particle) : Particle :=
  {| xy := {| x := (n2 * x p - px p + x force * (deltaTime * deltaTime))%num;
              y := (n2 * y p - py p + y force * (deltaTime * deltaTime))%num |};
     px := x p; py := y p; isFixed := isFixed p |}.

(** ** The pointer handler

    [makePointerHandler]: the closure state is [isDragging] and [prevPoint]
    ([undefined] until the first pointer-down).  An event carries the pointer
    position already transformed to model coordinates. *)

Record Handler : Type := mkHandler {
  isDragging : bool;
  prevPoint : option Point
}.

Inductive pointer_event : Type :=
  | PointerDown (txPoint : Point)
  | PointerMove (txPoint : Point)
  | PointerUp.

Definition initial_handler : Handler :=
  {| isDragging := false; prevPoint := None |}.

Definition handle (e : pointer_event) (s : Handler * Model)
  : result (Handler * Model) :=
  let (hd, m) := s in
  match e with
  | PointerDown txPoint =>
      ret ({| isDragging := true; prevPoint := Some txPoint |}, m)
  | PointerMove txPoint =>
      if isDragging hd then
        match prevPoint hd with
        | None => throw TypeError
        | Some prev =>
            if (pointLength (difference txPoint prev) <=? n0_01)%num then ret s
            else
              let batch := joinsToRemove prev txPoint m in
              ret ({| isDragging := isDragging hd; prevPoint := Some txPoint |},
                   removeJoins batch m)
        end
      else ret s
  | PointerUp => ret ({| isDragging := false; prevPoint := prevPoint hd |}, m)
  end.

Fixpoint handle_all (es : list pointer_event) (s : Handler * Model)
  : result (Handler * Model) :=
  match es with
  | [] => ret s
  | e :: es => s' <- handle e s ;; handle_all es s'
  end.

(** ** The frame loop

    [frame(now)]: [timestamp] is [undefined] before the first frame;
    [random] is what [Math.random()] returns in this frame's [tick]. *)
Definition frame (now random : number) (s : option number * Model)
  : option number * Model :=
  let timestamp := match fst s with None => now | Some t => t end in
  let elapsed := (now - timestamp)%num in
  (Some now, tick elapsed random (snd s)).

(** The joins made so far are numbered in order, and each one records the
    distance between its two ends in the store [h]. *)
Definition made_from (h : list Particle) (js : list Join) : Prop :=
  map jid js = seq 0 (List.length js) /\
  Forall (fun j => exists pf pt : Particle,
            h !! from j = Some pf /\ h !! to j = Some pt /\
            length j = pointLength (difference (xy pf) (xy pt))) js.

(** The two ends of a grid join are different points of the grid. *)
Definition ends_ok (n : nat) (e : nat * nat) : Prop :=
  fst e <> snd e /\ (fst e < n)%nat /\ (snd e < n)%nat.

Definition isPointerDown (e : pointer_event) : bool :=
  match e with PointerDown _ => true | _ => false end.

(** While dragging, the previous point is defined. *)
Definition handler_ok (hd : Handler) : Prop :=
  isDragging hd = true -> prevPoint hd <> None.

(** * Properties *)

(** ** Sanity checks of the embedding *)

Example n0_1_is_tenth : n0_1 = (n1 / n10)%num.
Proof. vm_compute. reflexivity. Qed.

Example n0_8_is_eight_tenths : n0_8 = (of_Z 8 / n10)%num.
Proof. vm_compute. reflexivity. Qed.

Example crossing_diagonals :
  lineIntersectsLine n0 n0 n1 n1 n0 n1 n1 n0 = true.
Proof. vm_compute. reflexivity. Qed.

Example disjoint_boxes :
  lineIntersectsLine n0 n0 n1 n1 n2 n0 (of_Z 3) n1 = false.
Proof. vm_compute. reflexivity. Qed.

(** ** The frame of [tick] *)

Section Frame.

#[local] Instance particle_frame_refl : Reflexive particle_frame.
Proof. intros p. split; auto. Qed.

#[local] Instance particle_frame_trans : Transitive particle_frame.
Proof.
  intros p q r [Hf1 Hk1] [Hf2 Hk2]. split.
  - congruence.
  - intros Hp. rewrite Hk2, Hk1; auto. rewrite Hf1. exact Hp.
Qed.

Lemma heap_frame_refl h : heap_frame h h.
Proof. unfold heap_frame. reflexivity. Qed.

Lemma heap_frame_trans h1 h2 h3 :
  heap_frame h1 h2 -> heap_frame h2 h3 -> heap_frame h1 h3.
Proof. unfold heap_frame. intros H12 H23. etransitivity; eassumption. Qed.

Lemma heap_frame_insert (h : list Particle) i p p' :
  h !! i = Some p -> particle_frame p p' -> heap_frame h (<[i := p']> h).
Proof.
  intros Hi Hp. unfold heap_frame.
  rewrite <- (list_insert_id h i p Hi) at 1.
  apply Forall2_insert; [reflexivity | exact Hp].
Qed.

Lemma heap_frame_fixed (h h' : list Particle) i p :
  heap_frame h h' -> h !! i = Some p -> isFixed p = true -> h' !! i = Some p.
Proof.
  intros Hh Hi Hp.
  destruct (Forall2_lookup_l _ _ _ _ _ Hh Hi) as (p' & Hi' & _ & Hk).
  rewrite Hi'. f_equal. auto.
Qed.

Lemma heap_frame_fold {A} (f : list Particle -> A -> list Particle) :
  (forall h a, heap_frame h (f h a)) ->
  forall l h, heap_frame h (fold_left f l h).
Proof.
  intros Hf l. induction l as [|a l IH]; intros h; simpl.
  - apply heap_frame_refl.
  - eapply heap_frame_trans; [apply Hf | apply IH].
Qed.

Lemma set_xy_free p nx ny :
  isFixed p = false -> particle_frame p (set_xy p nx ny).
Proof. intros Hp. split; simpl; [reflexivity | congruence]. Qed.

Lemma integrate_frame force deltaTime h particle :
  heap_frame h (integrate force deltaTime h particle).
Proof.
  unfold integrate.
  destruct (h !! particle) as [p|] eqn:Hp; [|apply heap_frame_refl].
  destruct (isFixed p) eqn:Hfix; [apply heap_frame_refl|].
  eapply heap_frame_insert; [exact Hp|].
  split; simpl; [reflexivity | congruence].
Qed.

Lemma relaxJoin_frame h join : heap_frame h (relaxJoin h join).
Proof.
  unfold relaxJoin.
  destruct (h !! from join) as [pf|] eqn:Hf; [|apply heap_frame_refl].
  destruct (h !! to join) as [pt|] eqn:Ht; [|apply heap_frame_refl].
  cbv zeta.
  match goal with |- heap_frame h (match ?h1 !! _ with _ => _ end) =>
    assert (H1 : heap_frame h h1); [|set (h1' := h1) in *] end.
  { destruct (isFixed pf) eqn:Hfix; simpl; [apply heap_frame_refl|].
    eapply heap_frame_insert; [exact Hf | apply set_xy_free, Hfix]. }
  destruct (h1' !! to join) as [pt'|] eqn:Ht'; [|exact H1].
  destruct (isFixed pt') eqn:Hfix'; simpl; [exact H1|].
  eapply heap_frame_trans; [exact H1|].
  eapply heap_frame_insert; [exact Ht' | apply set_xy_free, Hfix'].
Qed.

Lemma relaxAll_frame js h : heap_frame h (relaxAll js h).
Proof. apply heap_frame_fold. apply relaxJoin_frame. Qed.

Lemma tick_heap_frame deltaTime random m :
  heap_frame (heap m) (heap (tick deltaTime random m)).
Proof.
  unfold tick; simpl.
  set (h1 := fold_left _ (points m) (heap m)).
  apply (heap_frame_trans _ h1).
  - apply heap_frame_fold. intros h a. apply integrate_frame.
  - eapply heap_frame_trans; apply relaxAll_frame.
Qed.

Lemma removeJoin_heap j m : heap (removeJoin j m) = heap m.
Proof. reflexivity. Qed.

Lemma removeJoins_heap js m : heap (removeJoins js m) = heap m.
Proof.
  revert m. induction js as [|j js IH]; intros m; simpl; [reflexivity|].
  unfold removeJoins in IH. rewrite IH. reflexivity.
Qed.

Lemma perform_heap_frame o m : heap_frame (heap m) (heap (perform o m)).
Proof.
  destruct o; simpl.
  - apply tick_heap_frame.
  - apply heap_frame_refl.
  - apply heap_frame_refl.
  - unfold tear. destruct (_ <=? _)%num; [apply heap_frame_refl|].
  rewrite removeJoins_heap. apply heap_frame_refl.
Qed.

Lemma run_heap_frame ops m : heap_frame (heap m) (heap (run ops m)).
Proof.
  revert m. induction ops as [|o ops IH]; intros m; simpl.
  - apply heap_frame_refl.
  - eapply heap_frame_trans; [apply perform_heap_frame | apply IH].
Qed.

End Frame.

(** C10. [tick] leaves the [points] array and the [joins] array as they
    are (so no point or join is added or removed and no join changes its
    rest length or its endpoints), and in the store it keeps every object,
    every [isFixed] flag, and every fixed particle as a whole: only the
    coordinates of particles that are not fixed can change. *)
Theorem tick_frame deltaTime random m :
  points (tick deltaTime random m) = points m /\
  joins (tick deltaTime random m) = joins m /\
  heap_frame (heap m) (heap (tick deltaTime random m)).
Proof.
  split; [reflexivity|]. split; [reflexivity|]. apply tick_heap_frame.
Qed.

(** C6. A particle whose [isFixed] flag is set keeps its position (and its
    flag) through every sequence of ticks and tears. *)
Theorem fixed_point_invariance ops m i (p : Particle) :
  heap m !! i = Some p ->
  isFixed p = true ->
  exists p' : Particle,
    heap (run ops m) !! i = Some p' /\
    x p' = x p /\ y p' = y p /\ isFixed p' = true.
Proof.
  intros Hi Hp. exists p.
  split; [|auto].
  eapply heap_frame_fixed; [apply run_heap_frame | exact Hi | exact Hp].
Qed.

Lemma fixed_point_invariance_witness :
  let ops := [ Tick n10 n0_5; Tear (mkPoint n0_5 n0) (mkPoint n0_5 n2);
               Tick n0_1 n0; RemovePoint 3;
               RemoveJoin stretched_join; Tick n1 n1 ] in
  let p := {| xy := {| x := n1; y := n0 |}; px := n1; py := n0; isFixed := true |} in
  heap (grid 2 2) !! 1%nat = Some p /\
  isFixed p = true /\
  exists p' : Particle,
    heap (run ops (grid 2 2)) !! 1%nat = Some p' /\
    x p' = x p /\ y p' = y p /\ isFixed p' = true.
Proof.
  intros ops p.
  split; [vm_compute; reflexivity|]. split; [reflexivity|].
  apply (fixed_point_invariance ops (grid 2 2) 1%nat p);
    [vm_compute; reflexivity | reflexivity].
Defined.

(** C5. Whatever the state and the force sample, [tick] with a step of 10
    gives the same model, hence the same positions and previous positions,
    as [tick] with a step of 1/30. *)
Theorem tick_clamps_deltaTime random m :
  tick n10 random m = tick (n1 / n30)%num random m.
Proof.
  unfold tick.
  replace (min n10 (n1 / n30)%num) with (min (n1 / n30)%num (n1 / n30)%num)
    by (vm_compute; reflexivity).
  reflexivity.
Qed.

(** C7. Relaxing one join whose endpoints are two different objects: with
    [factor = (restLength - currentLength) / currentLength / 2] and
    [offset = (A - B) * factor], endpoint A gains the offset unless it is
    fixed, endpoint B loses it unless it is fixed, and no other object
    changes.  For rest length 1, A free at (0,0) and B at (2,0), one pass
    moves [A.x] from 0 to 0.5. *)
Theorem relaxJoin_correction (h : list Particle) join (pa pb : Particle) :
  from join <> to join ->
  h !! from join = Some pa ->
  h !! to join = Some pb ->
  let diff := difference pa pb in
  let currentLength := pointLength diff in
  let factor := ((length join - currentLength) / currentLength / n2)%num in
  let offset := {| x := (x diff * factor)%num; y := (y diff * factor)%num |} in
  (relaxJoin h join !! from join =
     Some (if isFixed pa then pa
           else set_xy pa (x pa + x offset)%num (y pa + y offset)%num) /\
   relaxJoin h join !! to join =
     Some (if isFixed pb then pb
           else set_xy pb (x pb - x offset)%num (y pb - y offset)%num) /\
   forall k, k <> from join -> k <> to join -> relaxJoin h join !! k = h !! k) /\
  (x <$> (xy <$> relaxAll [stretched_join] stretched_heap !! 0%nat)) = Some n0_5.
Proof.
  intros Hne Ha Hb diff currentLength factor offset.
  split; [|vm_compute; reflexivity].
  unfold relaxJoin. rewrite Ha, Hb. cbv zeta.
  fold diff. fold currentLength. fold factor. fold offset.
  set (pa' := set_xy pa (x pa + x offset)%num (y pa + y offset)%num).
  set (pb' := set_xy pb (x pb - x offset)%num (y pb - y offset)%num).
  assert (Hla : (from join < List.length h)%nat) by (eapply lookup_lt_Some; eauto).
  assert (Hlb : (to join < List.length h)%nat) by (eapply lookup_lt_Some; eauto).
  destruct (isFixed pa) eqn:Hfa; simpl.
  - rewrite Hb. destruct (isFixed pb) eqn:Hfb; simpl.
    + auto.
    + rewrite list_lookup_insert_ne by auto.
      rewrite list_lookup_insert_eq by auto.
      repeat split; auto.
      intros k _ Hk. rewrite list_lookup_insert_ne; auto.
  - rewrite list_lookup_insert_ne by auto. rewrite Hb.
    destruct (isFixed pb) eqn:Hfb; simpl.
    + rewrite list_lookup_insert_eq by auto.
      rewrite list_lookup_insert_ne by auto.
      repeat split; auto.
      intros k Hk _. rewrite list_lookup_insert_ne; auto.
    + rewrite list_lookup_insert_ne by auto.
      rewrite list_lookup_insert_eq by auto.
      rewrite list_lookup_insert_eq by (rewrite length_insert; auto).
      repeat split; auto.
      intros k Hk1 Hk2. rewrite !list_lookup_insert_ne; auto.
Qed.

Lemma relaxJoin_correction_witness :
  from stretched_join <> to stretched_join /\
  relaxJoin stretched_heap stretched_join !! 0%nat =
    Some {| xy := {| x := n0_5; y := S754_zero false |};
            px := n0; py := n0; isFixed := false |} /\
  relaxJoin stretched_heap stretched_join !! 1%nat =
    Some {| xy := {| x := (n1 + n0_5)%num; y := S754_zero false |};
            px := n1; py := n0; isFixed := false |}.
Proof.
  split; [discriminate|].
  destruct (relaxJoin_correction stretched_heap stretched_join
              {| xy := {| x := n0; y := n0 |}; px := n0; py := n0; isFixed := false |}
              {| xy := {| x := n2; y := n0 |}; px := n1; py := n0; isFixed := false |})
    as [(Ha & Hb & _) _]; [discriminate | reflexivity | reflexivity |].
  split.
  - etransitivity; [exact Ha|]. vm_compute. reflexivity.
  - etransitivity; [exact Hb|]. vm_compute. reflexivity.
Defined.

(** ** Orphan points after a tear *)

Section Orphans.

(** An index key starts with a digit, so it is never the key of a plain
    object. *)
Lemma index_key_not_object i : String.eqb object_property_key (index_key i) = false.
Proof.
  unfold index_key, NilZero.string_of_uint.
  destruct (Nat.to_uint i); reflexivity.
Qed.

Lemma has_property_object {A} (array : list A) :
  has_property object_property_key array = false.
Proof.
  unfold has_property.
  assert (H : existsb (String.eqb object_property_key)
                (map index_key (seq 0 (List.length array))) = false).
  { generalize (seq 0 (List.length array)). intros l.
    induction l as [|i l IH]; [reflexivity|].
    cbn [map existsb]. rewrite index_key_not_object. exact IH. }
  rewrite H. reflexivity.
Qed.

Lemma filter_all {A} (l : list A) : List.filter (fun _ => true) l = l.
Proof. induction l as [|a l IH]; simpl; [reflexivity | now rewrite IH]. Qed.

(** [removeJoin] never shortens the [points] array. *)
Lemma removeJoin_points j m : points (removeJoin j m) = points m.
Proof.
  unfold removeJoin; simpl.
  rewrite has_property_object. simpl. apply filter_all.
Qed.

Lemma removeJoins_points js m : points (removeJoins js m) = points m.
Proof.
  revert m. induction js as [|j js IH]; intros m; simpl; [reflexivity|].
  unfold removeJoins in IH. rewrite IH. apply removeJoin_points.
Qed.

End Orphans.

(** C1, at a failing input.  In the 2 x 2 grid the bottom-right point (object
    3) is touched by two joins.  After both are removed in one batch, no
    remaining join references the point, and it is still in the [points]
    array. *)
Theorem removeJoin_keeps_orphan :
  let batch := joinsTouching 3 (grid 2 2) in
  let m := removeJoins batch (grid 2 2) in
  map jid batch = [2%nat; 4%nat] /\
  joinsTouching 3 m = [] /\
  In 3%nat (points m) /\
  points m = points (grid 2 2).
Proof.
  intros batch m. split; [vm_compute; reflexivity|].
  split; [vm_compute; reflexivity|].
  assert (Hp : points m = points (grid 2 2)) by apply removeJoins_points.
  split; [|exact Hp].
  rewrite Hp. vm_compute. auto.
Qed.

(** ** The loops of [makeModel] *)

Section Loops.

Lemma bind_ret {A B} (a : A) (k : A -> result B) : bind (ret a) k = k a.
Proof. reflexivity. Qed.

(** A loop whose body appends to a list appends the concatenation. *)
Lemma for_loop_append {A B} (view : A -> B)
    (body : nat -> list A -> result (list A)) (g : nat -> list B)
    start count :
  (forall i l, (start <= i < start + count)%nat ->
     exists new, body i l = ret (l ++ new) /\ map view new = g i) ->
  forall l, exists new,
    for_loop start count body l = ret (l ++ new) /\
    map view new = flat_map g (seq start count).
Proof.
  revert start. induction count as [|k IH]; intros start Hbody l.
  - exists []. simpl. rewrite app_nil_r. auto.
  - destruct (Hbody start l) as (new1 & Hb & Hv); [lia|].
    destruct (IH (S start)) with (l := l ++ new1) as (new2 & Hl & Hv2).
    { intros i l' Hi. apply Hbody. lia. }
    exists (new1 ++ new2). simpl. rewrite Hb, bind_ret, Hl.
    rewrite app_assoc, map_app, Hv, Hv2. auto.
Qed.

Lemma lookup_map_seq {A} (g : nat -> A) n c :
  (c < n)%nat -> map g (seq 0 n) !! c = Some (g c).
Proof.
  intros Hc. change (map g (seq 0 n)) with (g <$> seq 0 n).
  rewrite list_lookup_fmap, lookup_seq_lt by exact Hc. reflexivity.
Qed.

Lemma length_rows {A} (g : nat -> nat -> A) n k :
  List.length (flat_map (fun r => map (g r) (seq 0 n)) (seq 0 k)) = (k * n)%nat.
Proof.
  induction k as [|k IH]; [reflexivity|].
  rewrite seq_S, flat_map_app, length_app, IH. simpl.
  rewrite app_nil_r, length_map, length_seq. lia.
Qed.

Lemma lookup_rows {A} (g : nat -> nat -> A) n k r c :
  (r < k)%nat -> (c < n)%nat ->
  flat_map (fun r => map (g r) (seq 0 n)) (seq 0 k) !! (r * n + c)%nat
  = Some (g r c).
Proof.
  induction k as [|k IH]; intros Hr Hc; [lia|].
  rewrite seq_S, flat_map_app. simpl. rewrite app_nil_r.
  destruct (decide (r < k)%nat) as [Hlt|Hge].
  - rewrite lookup_app_l by (rewrite length_rows; nia). auto.
  - assert (r = k) by lia. subst r.
    rewrite lookup_app_r by (rewrite length_rows; lia).
    rewrite length_rows.
    replace (k * n + c - k * n)%nat with c by lia.
    apply lookup_map_seq, Hc.
Qed.

End Loops.

(** ** The points [makeModel] allocates *)

Section MakePoints.
Variables width height : Z.

(** Allocating the particles [ps] and pushing their references. *)
Let grow (ps : list Particle) (s : list Particle * list ref)
  : list Particle * list ref :=
  (fst s ++ ps, snd s ++ seq (List.length (fst s)) (List.length ps)).

Lemma grow_nil s : grow [] s = s.
Proof. destruct s as [h pts]. unfold grow. simpl. now rewrite !app_nil_r. Qed.

Lemma grow_app ps qs s : grow qs (grow ps s) = grow (ps ++ qs) s.
Proof.
  destruct s as [h pts]. unfold grow. simpl.
  rewrite !length_app, seq_app, !app_assoc. reflexivity.
Qed.

Lemma for_loop_grow (body : nat -> _ -> result _) (g : nat -> list Particle)
    start count :
  (forall i s, body i s = ret (grow (g i) s)) ->
  forall s, for_loop start count body s
            = ret (grow (flat_map g (seq start count)) s).
Proof.
  intros Hbody. revert start.
  induction count as [|k IH]; intros start s; simpl.
  - now rewrite grow_nil.
  - rewrite Hbody, bind_ret, IH, grow_app. reflexivity.
Qed.

Lemma flat_map_singleton {A B} (g : A -> B) l :
  flat_map (fun a => [g a]) l = map g l.
Proof. induction l as [|a l IH]; simpl; [reflexivity | now rewrite IH]. Qed.

Lemma makePoints_spec :
  makePoints width height
  = ret (gridParticles width height,
         seq 0 (List.length (gridParticles width height))).
Proof.
  unfold makePoints.
  rewrite (for_loop_grow _
             (fun r => map (newPoint width height r) (seq 0 (Z.to_nat width)))).
  - reflexivity.
  - intros r s.
    rewrite (for_loop_grow _ (fun c => [newPoint width height r c])).
    + now rewrite flat_map_singleton.
    + intros c s'. reflexivity.
Qed.

Lemma length_gridParticles :
  List.length (gridParticles width height)
  = (Z.to_nat height * Z.to_nat width)%nat.
Proof. apply length_rows. Qed.

Lemma lookup_gridParticles r c :
  (r < Z.to_nat height)%nat -> (c < Z.to_nat width)%nat ->
  gridParticles width height !! idx (Z.to_nat width) r c
  = Some (newPoint width height r c).
Proof. apply lookup_rows. Qed.

End MakePoints.

(** ** The joins [makeModel] creates *)

Section MakeJoins.
Variables width height : Z.

Let W := Z.to_nat width.
Let H := Z.to_nat height.
Let h := gridParticles width height.
Let pts := seq 0 (List.length h).

Lemma pointByPosition_grid r c :
  (r < H)%nat -> (c < W)%nat ->
  pointByPosition width pts r c = Some (idx W r c).
Proof.
  intros Hr Hc. unfold pointByPosition, idx.
  assert (Hw : width = Z.of_nat W) by (unfold W; lia).
  destruct (Z.ltb_spec (Z.of_nat r * width + Z.of_nat c) 0) as [Hneg|_]; [nia|].
  replace (Z.to_nat (Z.of_nat r * width + Z.of_nat c)) with (r * W + c)%nat
    by (rewrite Hw; lia).
  unfold pts. rewrite lookup_seq_lt; [reflexivity|].
  unfold h. rewrite length_gridParticles. fold W H. nia.
Qed.

Lemma pushJoin_grid r1 c1 r2 c2 js :
  (r1 < H)%nat -> (c1 < W)%nat -> (r2 < H)%nat -> (c2 < W)%nat ->
  exists j,
    pushJoin h (pointByPosition width pts r1 c1)
               (pointByPosition width pts r2 c2) js = ret (js ++ [j]) /\
    ends j = (idx W r1 c1, idx W r2 c2).
Proof.
  intros Hr1 Hc1 Hr2 Hc2.
  rewrite !pointByPosition_grid by assumption.
  unfold pushJoin, makeJoin, h, W.
  rewrite !lookup_gridParticles by assumption.
  eexists. split; reflexivity.
Qed.

Lemma odd_mod2 n : Nat.eqb (n mod 2) 1 = Nat.odd n.
Proof.
  rewrite <- Nat.bit0_mod, Nat.bit0_odd. destruct (Nat.odd n); reflexivity.
Qed.

Lemma rowJoins_spec js :
  exists new,
    rowJoins width height h pts js = ret (js ++ new) /\
    map ends new
    = flat_map (fun r => flat_map (cellJoins W H r) (seq 0 (W - 1))) (seq 0 H).
Proof.
  unfold rowJoins. fold H. apply for_loop_append. intros r l Hr.
  replace (Z.to_nat (width - 1)) with (W - 1)%nat by (unfold W; lia).
  apply for_loop_append. clear l. intros c l Hc.
  destruct (pushJoin_grid r c r (c + 1) l) as (j1 & -> & He1); try lia.
  rewrite bind_ret. unfold cellJoins.
  replace (Z.of_nat r <? height - 1) with (r + 1 <? H)%nat.
  2: { destruct (Nat.ltb_spec (r + 1) H), (Z.ltb_spec (Z.of_nat r) (height - 1));
      try reflexivity; unfold H in *; lia. }
  destruct (Nat.ltb_spec (r + 1) H) as [Hlast|Hlast].
  - unfold shear. rewrite odd_mod2.
    destruct (Nat.odd (r + c)).
    + destruct (pushJoin_grid r c (r + 1) (c + 1) (l ++ [j1]))
        as (j2 & -> & He2); try lia.
      exists [j1; j2]. rewrite <- app_assoc. simpl.
      rewrite He1, He2. auto.
    + destruct (pushJoin_grid r (c + 1) (r + 1) c (l ++ [j1]))
        as (j2 & -> & He2); try lia.
      exists [j1; j2]. rewrite <- app_assoc. simpl.
      rewrite He1, He2. auto.
  - exists [j1]. simpl. rewrite He1. auto.
Qed.

Lemma columnJoins_spec js :
  exists new,
    columnJoins width height h pts js = ret (js ++ new) /\
    map ends new = verticalJoins W H.
Proof.
  unfold columnJoins, verticalJoins. fold W. apply for_loop_append.
  intros c l Hc.
  replace (Z.to_nat (height - 1)) with (H - 1)%nat by (unfold H; lia).
  rewrite <- flat_map_singleton.
  apply for_loop_append. clear l. intros r l Hr.
  destruct (pushJoin_grid r c (r + 1) c l) as (j & -> & He); try lia.
  exists [j]. simpl. rewrite He. auto.
Qed.

(** [makeModel] returns for all integers, and what it returns. *)
Lemma makeModel_spec :
  exists m,
    makeModel width height = inr m /\
    heap m = gridParticles width height /\
    points m = seq 0 (H * W) /\
    map ends (joins m) = storedOrder W H.
Proof.
  unfold makeModel. rewrite makePoints_spec, bind_ret. simpl fst. simpl snd.
  destruct (rowJoins_spec []) as (rows & Hrows & Hr).
  fold h. fold pts. rewrite Hrows, bind_ret. simpl app.
  destruct (columnJoins_spec rows) as (cols & Hcols & Hc).
  rewrite Hcols, bind_ret.
  eexists. split; [reflexivity|]. simpl.
  split; [reflexivity|]. split.
  - unfold pts, h. rewrite length_gridParticles. reflexivity.
  - rewrite map_app, Hr, Hc. reflexivity.
Qed.

End MakeJoins.

(** ** Counting the joins by kind *)

Section Kinds.
Variables W H : nat.
Hypothesis W_pos : (0 < W)%nat.

Lemma rowOf_idx r c : (c < W)%nat -> rowOf W (idx W r c) = r.
Proof.
  intros Hc. unfold rowOf, idx. symmetry.
  apply (Nat.div_unique _ _ _ c); lia.
Qed.

Lemma colOf_idx r c : (c < W)%nat -> colOf W (idx W r c) = c.
Proof.
  intros Hc. unfold colOf, idx. symmetry.
  apply (Nat.mod_unique _ _ r); lia.
Qed.

Ltac kind_of :=
  unfold isDiagonal, isHorizontal, isVertical; simpl;
  rewrite !rowOf_idx, !colOf_idx by lia;
  repeat match goal with
         | |- context [Nat.eqb ?a ?b] => destruct (Nat.eqb_spec a b); try lia
         end; auto.

Lemma horizontal_kind r c :
  (c + 1 < W)%nat ->
  isHorizontal W (horizontal W r c) = true /\
  isVertical W (horizontal W r c) = false /\
  isDiagonal W (horizontal W r c) = false.
Proof. intros Hc. unfold horizontal. kind_of. Qed.

Lemma vertical_kind r c :
  (c < W)%nat ->
  isHorizontal W (vertical W r c) = false /\
  isVertical W (vertical W r c) = true /\
  isDiagonal W (vertical W r c) = false.
Proof. intros Hc. unfold vertical. kind_of. Qed.

Lemma shear_kind r c :
  (c + 1 < W)%nat ->
  isHorizontal W (shear W r c) = false /\
  isVertical W (shear W r c) = false /\
  isDiagonal W (shear W r c) = true.
Proof. intros Hc. unfold shear. destruct (Nat.odd (r + c)); kind_of. Qed.

Lemma Forall_rows {A} (P : A -> Prop) (g : nat -> nat -> A) n k :
  (forall r c, (r < k)%nat -> (c < n)%nat -> P (g r c)) ->
  Forall P (flat_map (fun r => map (g r) (seq 0 n)) (seq 0 k)).
Proof.
  intros Hg. apply List.Forall_forall. intros a Ha.
  apply in_flat_map in Ha. destruct Ha as (r & Hr & Ha).
  apply in_map_iff in Ha. destruct Ha as (c & <- & Hc).
  apply in_seq in Hr. apply in_seq in Hc. apply Hg; lia.
Qed.

Lemma length_filter_all {A} (f : A -> bool) l :
  Forall (fun a => f a = true) l ->
  List.length (List.filter f l) = List.length l.
Proof.
  induction 1 as [|a l Ha _ IH]; simpl; [reflexivity|].
  rewrite Ha. simpl. now rewrite IH.
Qed.

Lemma length_filter_none {A} (f : A -> bool) l :
  Forall (fun a => f a = false) l ->
  List.length (List.filter f l) = 0%nat.
Proof.
  induction 1 as [|a l Ha _ IH]; simpl; [reflexivity|].
  rewrite Ha. exact IH.
Qed.

Lemma horizontalJoins_kind :
  Forall (fun e => isHorizontal W e = true /\ isVertical W e = false
                   /\ isDiagonal W e = false) (horizontalJoins W H).
Proof. apply Forall_rows. intros r c _ Hc. apply horizontal_kind. lia. Qed.

Lemma shearJoins_kind :
  Forall (fun e => isHorizontal W e = false /\ isVertical W e = false
                   /\ isDiagonal W e = true) (shearJoins W H).
Proof. apply Forall_rows. intros r c _ Hc. apply shear_kind. lia. Qed.

Lemma verticalJoins_kind :
  Forall (fun e => isHorizontal W e = false /\ isVertical W e = true
                   /\ isDiagonal W e = false) (verticalJoins W H).
Proof.
  apply (Forall_rows _ (fun c r => vertical W r c)).
  intros c r Hc _. apply vertical_kind. lia.
Qed.

(** The stored order is a rearrangement of the specified one. *)
Lemma flat_map_split {A B} (f g : A -> list B) l :
  flat_map (fun a => f a ++ g a) l ≡ₚ flat_map f l ++ flat_map g l.
Proof.
  induction l as [|a l IH]; simpl; [reflexivity|].
  rewrite IH. solve_Permutation.
Qed.

Lemma cells_of_row r :
  flat_map (cellJoins W H r) (seq 0 (W - 1))
  ≡ₚ map (horizontal W r) (seq 0 (W - 1))
     ++ (if (r + 1 <? H)%nat then map (shear W r) (seq 0 (W - 1)) else []).
Proof.
  unfold cellJoins.
  rewrite (flat_map_split (fun c => [horizontal W r c])
             (fun c => if (r + 1 <? H)%nat then [shear W r c] else [])).
  rewrite flat_map_singleton.
  destruct (r + 1 <? H)%nat.
  - now rewrite flat_map_singleton.
  - apply Permutation_app_head.
    induction (seq 0 (W - 1)); simpl; auto.
Qed.

Lemma shear_rows :
  flat_map (fun r => if (r + 1 <? H)%nat
                     then map (shear W r) (seq 0 (W - 1)) else []) (seq 0 H)
  = shearJoins W H.
Proof.
  clear W_pos. unfold shearJoins. destruct H as [|k]; [reflexivity|].
  rewrite seq_S, flat_map_app. simpl.
  replace (k + 1 <? S k)%nat with false
    by (symmetry; apply Nat.ltb_ge; lia).
  rewrite !app_nil_r, Nat.sub_0_r.
  assert (Hext : forall l, Forall (fun r => (r < k)%nat) l ->
            flat_map (fun r => if (r + 1 <? S k)%nat
                               then map (shear W r) (seq 0 (W - 1)) else []) l
            = flat_map (fun r => map (shear W r) (seq 0 (W - 1))) l).
  { induction 1 as [|r l Hr _ IH]; simpl; [reflexivity|].
    replace (r + 1 <? S k)%nat with true
      by (symmetry; apply Nat.ltb_lt; lia).
    now rewrite IH. }
  apply Hext. apply List.Forall_forall. intros r Hr.
  apply in_seq in Hr. lia.
Qed.

Lemma storedOrder_Permutation : storedOrder W H ≡ₚ specifiedOrder W H.
Proof.
  unfold storedOrder, specifiedOrder. rewrite app_assoc.
  apply Permutation_app_tail.
  transitivity (flat_map (fun r =>
      map (horizontal W r) (seq 0 (W - 1))
      ++ (if (r + 1 <? H)%nat then map (shear W r) (seq 0 (W - 1)) else []))
    (seq 0 H)).
  - induction (seq 0 H) as [|r l IH]; simpl; [reflexivity|].
    rewrite IH, cells_of_row. reflexivity.
  - rewrite flat_map_split, shear_rows. reflexivity.
Qed.

Lemma length_filter_Permutation {A} (f : A -> bool) l l' :
  l ≡ₚ l' -> List.length (List.filter f l) = List.length (List.filter f l').
Proof.
  induction 1 as [|a l l' _ IH|a b l|l1 l2 l3 _ IH1 _ IH2]; simpl.
  - reflexivity.
  - destruct (f a); simpl; now rewrite IH.
  - destruct (f a), (f b); reflexivity.
  - now rewrite IH1.
Qed.

Lemma count_specifiedOrder :
  List.length (List.filter (isHorizontal W) (specifiedOrder W H)) = (H * (W - 1))%nat /\
  List.length (List.filter (isVertical W) (specifiedOrder W H)) = (W * (H - 1))%nat /\
  List.length (List.filter (isDiagonal W) (specifiedOrder W H)) = ((H - 1) * (W - 1))%nat.
Proof.
  unfold specifiedOrder. rewrite !List.filter_app, !length_app.
  pose proof horizontalJoins_kind as Hh.
  pose proof shearJoins_kind as Hs.
  pose proof verticalJoins_kind as Hv.
  assert (Lh : List.length (horizontalJoins W H) = (H * (W - 1))%nat)
    by apply length_rows.
  assert (Ls : List.length (shearJoins W H) = ((H - 1) * (W - 1))%nat)
    by apply length_rows.
  assert (Lv : List.length (verticalJoins W H) = (W * (H - 1))%nat)
    by apply (length_rows (fun c r => vertical W r c)).
  repeat split.
  - rewrite (length_filter_all _ (horizontalJoins W H)),
      (length_filter_none _ (shearJoins W H)),
      (length_filter_none _ (verticalJoins W H)); [lia|..];
      eapply Forall_impl; eauto; simpl; tauto.
  - rewrite (length_filter_none _ (horizontalJoins W H)),
      (length_filter_none _ (shearJoins W H)),
      (length_filter_all _ (verticalJoins W H)); [lia|..];
      eapply Forall_impl; eauto; simpl; tauto.
  - rewrite (length_filter_none _ (horizontalJoins W H)),
      (length_filter_all _ (shearJoins W H)),
      (length_filter_none _ (verticalJoins W H)); [lia|..];
      eapply Forall_impl; eauto; simpl; tauto.
Qed.

End Kinds.

(** ** The fixed points of a fresh grid *)

Section FixedRow.
Variables width height : Z.

Lemma isFixedAt_grid r c :
  (r < Z.to_nat height)%nat -> (c < Z.to_nat width)%nat ->
  isFixedAt (gridParticles width height) (idx (Z.to_nat width) r c)
  = Nat.eqb r 0.
Proof.
  intros Hr Hc. unfold isFixedAt.
  rewrite lookup_gridParticles by assumption. reflexivity.
Qed.

Lemma filter_none {A} (f : A -> bool) l :
  (forall a, In a l -> f a = false) -> List.filter f l = [].
Proof.
  induction l as [|a l IH]; intros Hf; simpl; [reflexivity|].
  rewrite (Hf a) by (left; reflexivity). apply IH.
  intros b Hb. apply Hf. right. exact Hb.
Qed.

Lemma fixedPoints_grid :
  (0 < Z.to_nat height)%nat ->
  List.filter (isFixedAt (gridParticles width height))
              (seq 0 (Z.to_nat height * Z.to_nat width))
  = seq 0 (Z.to_nat width).
Proof.
  set (W := Z.to_nat width). set (H := Z.to_nat height). intros HH.
  replace (H * W)%nat with (W + (H - 1) * W)%nat by nia.
  rewrite seq_app, List.filter_app. simpl.
  rewrite (filter_ext_in _ (fun _ => true)), filter_all.
  - rewrite filter_none; [apply app_nil_r|].
    intros i Hi. apply in_seq in Hi.
    assert (HW : (0 < W)%nat) by lia.
    pose proof (Nat.div_mod_eq i W) as Hdm.
    pose proof (Nat.mod_upper_bound i W ltac:(lia)) as Hm.
    assert (Hq : (1 <= i / W < H)%nat).
    { split.
      - destruct (i / W)%nat; [lia | lia].
      - apply Nat.Div0.div_lt_upper_bound. nia. }
    replace i with (idx W (i / W) (i mod W)) by (unfold idx; lia).
    unfold W at 1. rewrite isFixedAt_grid by (fold W H; lia).
    destruct (i / W)%nat; [lia | reflexivity].
  - intros i Hi. apply in_seq in Hi.
    replace i with (idx W 0 i) by reflexivity.
    unfold W at 1. rewrite isFixedAt_grid by (fold W H; lia).
    reflexivity.
Qed.

End FixedRow.

(** ** The claims about [makeModel] *)

(** C2, as the specification states it, fails at a 1 x 1 grid: [makeModel]
    returns a model there (one fixed point at NaN coordinates, no join) and
    raises nothing. *)
Lemma makeModel_one_by_one_returns :
  1 < 2 /\
  makeModel 1 1
  = inr {| heap := [ {| xy := {| x := NaN; y := NaN |};
                        px := NaN; py := NaN; isFixed := true |} ];
           points := [0%nat];
           joins := [] |} /\
  forall e, makeModel 1 1 <> inl e.
Proof.
  split; [lia|]. split; [vm_compute; reflexivity|].
  intros e. vm_compute. discriminate.
Qed.

(** C2, amended.  [makeModel] checks nothing about its dimensions: for
    integers with [width < 2] or [height < 2] it raises no error and
    returns a model, with one point per grid position. *)
Theorem makeModel_small_returns width height :
  width < 2 \/ height < 2 ->
  exists m,
    makeModel width height = inr m /\
    List.length (points m) = (Z.to_nat height * Z.to_nat width)%nat.
Proof.
  intros _.
  destruct (makeModel_spec width height) as (m & Hm & _ & Hp & _).
  exists m. split; [exact Hm|]. rewrite Hp. apply length_seq.
Qed.

Lemma makeModel_small_returns_witness :
  (1 < 2 \/ 1 < 2) /\
  exists m, makeModel 1 1 = inr m /\ List.length (points m) = 1%nat.
Proof.
  split; [left; lia|].
  apply (makeModel_small_returns 1 1). left. lia.
Defined.

(** C3, as the specification states it, fails at a 2 x 2 grid: the second
    stored join is the shear join of the first cell, not the second
    horizontal join. *)
Lemma makeModel_order_differs :
  map ends (joins (grid 2 2))
  = [(0, 1); (1, 2); (2, 3); (0, 2); (1, 3)]%nat /\
  specifiedOrder 2 2
  = [(0, 1); (2, 3); (1, 2); (0, 2); (1, 3)]%nat /\
  map ends (joins (grid 2 2)) <> specifiedOrder 2 2.
Proof.
  split; [vm_compute; reflexivity|]. split; [vm_compute; reflexivity|].
  vm_compute. discriminate.
Qed.

(** C3, amended.  For [width >= 2] and [height >= 2] the joins are stored
    cell by cell: for each row, for each pair of adjacent columns, the
    horizontal join and right after it (except in the last row) the shear
    join of that cell, from (r,c) to (r+1,c+1) when r+c is odd and from
    (r,c+1) to (r+1,c) otherwise; after all rows come the vertical joins,
    for each column between adjacent rows.  These are the joins the
    specification lists, in a different order. *)
Theorem makeModel_join_order width height :
  2 <= width -> 2 <= height ->
  exists m,
    makeModel width height = inr m /\
    map ends (joins m) = storedOrder (Z.to_nat width) (Z.to_nat height) /\
    map ends (joins m) ≡ₚ specifiedOrder (Z.to_nat width) (Z.to_nat height).
Proof.
  intros _ _.
  destruct (makeModel_spec width height) as (m & Hm & _ & _ & Hj).
  exists m. split; [exact Hm|]. split; [exact Hj|].
  rewrite Hj. apply storedOrder_Permutation.
Qed.

Lemma makeModel_join_order_witness :
  2 <= 3 /\ 2 <= 3 /\
  exists m,
    makeModel 3 3 = inr m /\
    map ends (joins m) = storedOrder 3 3 /\
    map ends (joins m) ≡ₚ specifiedOrder 3 3.
Proof.
  split; [lia|]. split; [lia|].
  apply (makeModel_join_order 3 3); lia.
Defined.

(** C4.  For [width >= 2] and [height >= 2], [makeModel] creates
    [width * height] points, each its own object; the fixed ones are exactly
    the [width] points of row 0; and there are [height * (width - 1)]
    horizontal, [width * (height - 1)] vertical and
    [(height - 1) * (width - 1)] diagonal joins, and no other join. *)
Theorem makeModel_counts width height :
  2 <= width -> 2 <= height ->
  let W := Z.to_nat width in
  let H := Z.to_nat height in
  exists m,
    makeModel width height = inr m /\
    List.length (points m) = (W * H)%nat /\
    NoDup (points m) /\
    fixedPoints m = map (idx W 0) (seq 0 W) /\
    List.length (fixedPoints m) = W /\
    countJoins (isHorizontal W) m = (H * (W - 1))%nat /\
    countJoins (isVertical W) m = (W * (H - 1))%nat /\
    countJoins (isDiagonal W) m = ((H - 1) * (W - 1))%nat /\
    List.length (joins m)
    = (H * (W - 1) + W * (H - 1) + (H - 1) * (W - 1))%nat.
Proof.
  intros Hw Hh W H.
  destruct (makeModel_spec width height) as (m & Hm & Hheap & Hp & Hj).
  fold W H in Hp, Hj.
  assert (Hfix : fixedPoints m = seq 0 W).
  { unfold fixedPoints. rewrite Hheap, Hp. apply fixedPoints_grid. lia. }
  destruct (count_specifiedOrder W H ltac:(lia)) as (Ch & Cv & Cd).
  exists m. split; [exact Hm|].
  split; [rewrite Hp, length_seq; lia|].
  split; [rewrite Hp; apply NoDup_ListNoDup, seq_NoDup|].
  split; [rewrite Hfix; unfold idx; simpl; now rewrite map_id|].
  split; [rewrite Hfix; apply length_seq|].
  unfold countJoins. rewrite Hj.
  rewrite !(length_filter_Permutation _ _ _ (storedOrder_Permutation W H)).
  split; [exact Ch|]. split; [exact Cv|]. split; [exact Cd|].
  rewrite <- (length_map ends), Hj.
  rewrite (Permutation_length (storedOrder_Permutation W H)).
  unfold specifiedOrder. rewrite !length_app.
  unfold horizontalJoins, shearJoins, verticalJoins.
  rewrite !length_rows. lia.
Qed.

Lemma makeModel_counts_witness :
  2 <= 3 /\ 2 <= 3 /\
  exists m,
    makeModel 3 3 = inr m /\
    List.length (points m) = 9%nat /\
    fixedPoints m = [0; 1; 2]%nat /\
    List.length (fixedPoints m) = 3%nat /\
    countJoins (isHorizontal 3) m = 6%nat /\
    countJoins (isVertical 3) m = 6%nat /\
    countJoins (isDiagonal 3) m = 4%nat /\
    List.length (joins m) = 16%nat.
Proof.
  split; [lia|]. split; [lia|].
  destruct (makeModel_counts 3 3) as (m & Hm & Hp & _ & Hf & Hl & Ch & Cv & Cd & Hn);
    [lia | lia |].
  exists m. repeat split; assumption.
Defined.

(** ** Facts about numbers *)

Section NumberFacts.

Lemma binary_round_aux_neg s m e l :
  binary_round_aux prec emax (negb s) m e l
  = neg (binary_round_aux prec emax s m e l).
Proof.
  unfold binary_round_aux.
  destruct (shr_fexp prec emax m e l) as [mrs' e'].
  destruct (shr_fexp prec emax _ e' loc_Exact) as [mrs'' e''].
  destruct (shr_m mrs''); try reflexivity.
  destruct (e'' <=? emax - prec); reflexivity.
Qed.

Lemma binary_round_neg s m e :
  binary_round prec emax (negb s) m e = neg (binary_round prec emax s m e).
Proof.
  unfold binary_round.
  destruct (shl_align m e _) as [mz ez]. apply binary_round_aux_neg.
Qed.

Lemma binary_normalize_opp m e :
  same_value (binary_normalize prec emax (- m) e false)
             (neg (binary_normalize prec emax m e false)).
Proof.
  destruct m as [|p|p]; simpl.
  - right. auto.
  - left. apply (binary_round_neg false).
  - left. apply (binary_round_neg true).
Qed.

Lemma same_value_refl a : same_value a a.
Proof. left. reflexivity. Qed.

Lemma same_value_sym a b : same_value a b -> same_value b a.
Proof. intros [->|[Ha Hb]]; [left | right]; auto. Qed.

Lemma same_value_trans a b c :
  same_value a b -> same_value b c -> same_value a c.
Proof.
  intros [->|[Ha Hb]] [->|[Hb' Hc]]; try (left; reflexivity);
    right; auto.
Qed.

#[local] Instance same_value_equiv : Equivalence same_value.
Proof.
  split; [exact same_value_refl | exact same_value_sym | exact same_value_trans].
Qed.

Ltac zeros :=
  repeat match goal with
         | H : is_zero ?a = true |- _ =>
             destruct a; try discriminate H; clear H
         end.

Ltac same_or_zeros := first [left; reflexivity | right; split; reflexivity].

#[local] Instance neg_proper : Proper (same_value ==> same_value) neg.
Proof. intros a a' [->|[Ha Ha']]; zeros; same_or_zeros. Qed.

#[local] Instance mul_proper :
  Proper (same_value ==> same_value ==> same_value) mul.
Proof.
  intros a a' [->|[Ha Ha']] b b' [->|[Hb Hb']]; zeros;
    try same_or_zeros.
  - destruct a'; same_or_zeros.
  - destruct b'; same_or_zeros.
Qed.

#[local] Instance sub_proper :
  Proper (same_value ==> same_value ==> same_value) sub.
Proof.
  intros a a' [->|[Ha Ha']] b b' [->|[Hb Hb']]; zeros;
    try same_or_zeros.
  - destruct a' as [[]|[]| |[] ? ?], s, s0; same_or_zeros.
  - destruct b' as [[]|[]| |[] ? ?], s, s0; same_or_zeros.
  - destruct s, s0, s1, s2; same_or_zeros.
Qed.

Lemma div_proper_l n n' d : same_value n n' -> same_value (n / d)%num (n' / d)%num.
Proof.
  intros [->|[Hn Hn']]; zeros; [reflexivity|].
  destruct d; same_or_zeros.
Qed.

Lemma le_proper_r a b b' : same_value b b' -> (a <=? b')%num = (a <=? b)%num.
Proof. intros [->|[Hb Hb']]; zeros; [reflexivity|]. destruct a; reflexivity. Qed.

Lemma ge_proper_r a b b' : same_value b b' -> (a >=? b')%num = (a >=? b)%num.
Proof. intros [->|[Hb Hb']]; zeros; [reflexivity|]. destruct a; reflexivity. Qed.

Lemma mul_comm a b : (a * b)%num = (b * a)%num.
Proof.
  destruct a as [sa|sa| |sa ma ea], b as [sb|sb| |sb mb eb]; simpl;
    try (rewrite (xorb_comm sa sb); reflexivity); try reflexivity.
  unfold mul. simpl.
  rewrite (xorb_comm sa sb), (Pos.mul_comm ma mb), (Z.add_comm ea eb).
  reflexivity.
Qed.

Lemma neg_mul_l a b : (neg a * b)%num = neg (a * b)%num.
Proof.
  destruct a as [sa|sa| |sa ma ea], b as [sb|sb| |sb mb eb]; simpl;
    try (rewrite <- negb_xorb_l; reflexivity); try reflexivity.
  unfold mul. simpl. rewrite <- negb_xorb_l. apply binary_round_aux_neg.
Qed.

Lemma neg_mul_r a b : (a * neg b)%num = neg (a * b)%num.
Proof. rewrite mul_comm, neg_mul_l, mul_comm. reflexivity. Qed.

Lemma cond_Zopp_negb s m : cond_Zopp (negb s) m = - cond_Zopp s m.
Proof. destruct s; simpl; lia. Qed.

(** Swapping the operands of a subtraction negates the result. *)
Lemma sub_swap a b : same_value (b - a)%num (neg (a - b)%num).
Proof.
  destruct a as [sa|sa| |sa ma ea], b as [sb|sb| |sb mb eb];
    try (destruct sa, sb; simpl; (left; reflexivity) || (right; split; reflexivity));
    try (destruct sa; simpl; left; reflexivity);
    try (destruct sb; simpl; left; reflexivity);
    try (left; reflexivity).
  unfold sub, SFsub. cbv zeta. rewrite (Z.min_comm eb ea).
  match goal with
  | |- same_value (binary_normalize _ _ (?p - ?q) _ _) _ =>
      replace (p - q) with (- (q - p)) by lia
  end.
  apply binary_normalize_opp.
Qed.

Lemma sub_neg_neg a b : same_value (neg a - neg b)%num (neg (a - b)%num).
Proof.
  destruct a as [sa|sa| |sa ma ea], b as [sb|sb| |sb mb eb];
    try (destruct sa, sb; simpl; (left; reflexivity) || (right; split; reflexivity));
    try (destruct sa; simpl; left; reflexivity);
    try (destruct sb; simpl; left; reflexivity);
    try (left; reflexivity).
  unfold sub, neg, SFsub, SFopp. cbv zeta.
  rewrite !cond_Zopp_negb.
  match goal with
  | |- same_value (binary_normalize _ _ (- ?p - - ?q) _ _) _ =>
      replace (- p - - q) with (- (p - q)) by lia
  end.
  apply binary_normalize_opp.
Qed.

Lemma div_neg_neg n d : (neg n / neg d)%num = (n / d)%num.
Proof.
  destruct n as [sn|sn| |sn mn en], d as [sd|sd| |sd md ed]; simpl;
    try reflexivity; destruct sn, sd; reflexivity.
Qed.

Lemma same_value_nonzero a b :
  is_zero a = false -> same_value b a -> b = a.
Proof. intros Ha [->|[_ Hz]]; [reflexivity | congruence]. Qed.

Lemma same_value_is_zero a b : same_value a b -> is_zero a = is_zero b.
Proof. intros [->|[-> ->]]; reflexivity. Qed.

Lemma is_zero_neg a : is_zero (neg a) = is_zero a.
Proof. destruct a; reflexivity. Qed.

End NumberFacts.

(** ** Comparisons, minimum and maximum *)

Section Comparisons.

Lemma compare_antisym a b :
  SFcompare b a = option_map CompOpp (SFcompare a b).
Proof.
  destruct a as [sa|sa| |sa ma ea], b as [sb|sb| |sb mb eb]; simpl;
    try reflexivity; try (destruct sa, sb; reflexivity);
    try (destruct sa; reflexivity); try (destruct sb; reflexivity).
  pose proof (Pos.compare_cont_antisym ma mb Eq) as Hc. simpl in Hc.
  destruct sa, sb; try reflexivity;
    rewrite (Z.compare_antisym ea eb);
    destruct (ea ?= eb); simpl; try reflexivity;
    rewrite <- Hc; destruct (Pos.compare_cont Eq ma mb); reflexivity.
Qed.

Lemma compare_eq a b : SFcompare a b = Some Eq -> same_value a b.
Proof.
  destruct a as [sa|sa| |sa ma ea], b as [sb|sb| |sb mb eb]; simpl;
    try discriminate;
    try (destruct sa; discriminate); try (destruct sb; discriminate).
  - intros _. right. auto.
  - destruct sa, sb; try discriminate; left; reflexivity.
  - destruct sa, sb; try discriminate;
      destruct (ea ?= eb) eqn:He; try discriminate;
      apply Z.compare_eq in He; subst eb; intros Hm;
      assert (Hc : Pos.compare_cont Eq ma mb = Eq)
        by (destruct (Pos.compare_cont Eq ma mb); simpl in Hm; congruence);
      apply Pos.compare_eq in Hc; subst mb; left; reflexivity.
Qed.

Lemma ge_le a b : (a >=? b)%num = (b <=? a)%num.
Proof.
  unfold ge, le. rewrite (compare_antisym a b).
  destruct (SFcompare a b) as [[]|]; reflexivity.
Qed.

Lemma le_total a b :
  is_nan a = false -> is_nan b = false ->
  (a <=? b)%num = false -> (b <=? a)%num = true.
Proof.
  unfold le. rewrite (compare_antisym a b).
  destruct a as [sa|sa| |sa ma ea], b as [sb|sb| |sb mb eb]; simpl;
    try discriminate; intros _ _;
    repeat match goal with
           | |- context [match ?c with Eq => _ | Lt => _ | Gt => _ end] =>
               destruct c; simpl
           | s : bool |- _ => destruct s; simpl
           end; congruence.
Qed.

Lemma le_antisym a b :
  (a <=? b)%num = true -> (b <=? a)%num = true -> same_value a b.
Proof.
  unfold le. rewrite (compare_antisym a b).
  destruct (SFcompare a b) as [[]|] eqn:Hc; simpl; try discriminate.
  intros _ _. apply compare_eq, Hc.
Qed.

Lemma min_comm a b : min a b = min b a.
Proof.
  destruct (is_nan a) eqn:Ha; [destruct a, b; try discriminate; reflexivity|].
  destruct (is_nan b) eqn:Hb; [destruct a, b; try discriminate; reflexivity|].
  destruct (is_zero a && is_zero b) eqn:Hz.
  { destruct a, b; try discriminate. simpl. now rewrite orb_comm. }
  assert (Hmin : forall u v, is_nan u = false -> is_nan v = false ->
            is_zero u && is_zero v = false ->
            min u v = if (u <=? v)%num then u else v).
  { intros u v Hu Hv Huv. destruct u, v; try discriminate; reflexivity. }
  rewrite (Hmin a b), (Hmin b a); auto; [|now rewrite andb_comm].
  destruct (a <=? b)%num eqn:Hab, (b <=? a)%num eqn:Hba; try reflexivity.
  - destruct (le_antisym a b Hab Hba) as [->|[Hza Hzb]]; [reflexivity|].
    rewrite Hza, Hzb in Hz. discriminate.
  - rewrite (le_total a b Ha Hb Hab) in Hba. discriminate.
Qed.

Lemma max_comm a b : max a b = max b a.
Proof.
  destruct (is_nan a) eqn:Ha; [destruct a, b; try discriminate; reflexivity|].
  destruct (is_nan b) eqn:Hb; [destruct a, b; try discriminate; reflexivity|].
  destruct (is_zero a && is_zero b) eqn:Hz.
  { destruct a, b; try discriminate. simpl. now rewrite andb_comm. }
  assert (Hmax : forall u v, is_nan u = false -> is_nan v = false ->
            is_zero u && is_zero v = false ->
            max u v = if (u <=? v)%num then v else u).
  { intros u v Hu Hv Huv. destruct u, v; try discriminate; reflexivity. }
  rewrite (Hmax a b), (Hmax b a); auto; [|now rewrite andb_comm].
  destruct (a <=? b)%num eqn:Hab, (b <=? a)%num eqn:Hba; try reflexivity.
  - destruct (le_antisym a b Hab Hba) as [->|[Hza Hzb]]; [reflexivity|].
    rewrite Hza, Hzb in Hz. discriminate.
  - rewrite (le_total a b Ha Hb Hab) in Hba. discriminate.
Qed.

(** Only an infinite operand brings the minimum down to [-Infinity], or
    the maximum up to [Infinity]. *)
Lemma min_le_neg_infinity a b :
  (min a b <=? S754_infinity true)%num = true ->
  is_infinite a || is_infinite b = true.
Proof.
  destruct a as [sa|sa| |sa ma ea], b as [sb|sb| |sb mb eb]; simpl;
    try reflexivity; try discriminate;
    try (destruct sa; discriminate); try (destruct sb; discriminate);
    try (destruct sa, sb; discriminate).
  destruct (S754_finite sa ma ea <=? S754_finite sb mb eb)%num;
    unfold le; simpl; [destruct sa | destruct sb]; discriminate.
Qed.

Lemma max_ge_infinity a b :
  (max a b >=? S754_infinity false)%num = true ->
  is_infinite a || is_infinite b = true.
Proof.
  destruct a as [sa|sa| |sa ma ea], b as [sb|sb| |sb mb eb]; simpl;
    try reflexivity; try discriminate;
    try (destruct sa; discriminate); try (destruct sb; discriminate);
    try (destruct sa, sb; discriminate).
  destruct (S754_finite sa ma ea <=? S754_finite sb mb eb)%num;
    unfold ge; simpl; [destruct sb | destruct sa]; discriminate.
Qed.

End Comparisons.

(** ** The intersection test *)

Section Intersection.

#[local] Existing Instances same_value_equiv neg_proper mul_proper sub_proper.

Lemma not_finite_sub_l a b : not_finite a = true -> not_finite (a - b)%num = true.
Proof.
  destruct a as [sa|sa| |sa ma ea]; try discriminate; intros _;
    destruct b as [sb|sb| |sb mb eb]; try reflexivity.
  destruct sa, sb; reflexivity.
Qed.

Lemma not_finite_sub_r a b : not_finite b = true -> not_finite (a - b)%num = true.
Proof.
  destruct b as [sb|sb| |sb mb eb]; try discriminate; intros _;
    destruct a as [sa|sa| |sa ma ea]; try reflexivity.
  destruct sa, sb; reflexivity.
Qed.

Lemma not_finite_mul_l a b : not_finite a = true -> not_finite (a * b)%num = true.
Proof.
  destruct a as [sa|sa| |sa ma ea]; try discriminate; intros _;
    destruct b as [sb|sb| |sb mb eb]; reflexivity.
Qed.

Lemma not_finite_nonzero a : not_finite a = true -> is_zero a = false.
Proof. destruct a; try discriminate; reflexivity. Qed.

Lemma div_by_zero n d : is_zero d = true -> not_finite (n / d)%num = true.
Proof.
  destruct d; try discriminate. intros _. destruct n; reflexivity.
Qed.

Lemma infinite_not_finite a : is_infinite a = true -> not_finite a = true.
Proof. destruct a; try discriminate; reflexivity. Qed.

(** A segment with an infinite abscissa never yields a zero denominator. *)
Lemma zero_denominator_finite_abscissas x1 y1 x2 y2 x3 y3 x4 y4 :
  is_zero (denominator x1 y1 x2 y2 x3 y3 x4 y4) = true ->
  is_infinite x1 || is_infinite x2 = false.
Proof.
  intros Hz.
  destruct (is_infinite x1 || is_infinite x2) eqn:Hinf; [|reflexivity].
  assert (Hd : not_finite (x1 - x2)%num = true).
  { apply orb_true_iff in Hinf. destruct Hinf as [Hi|Hi].
    - apply not_finite_sub_l, infinite_not_finite, Hi.
    - apply not_finite_sub_r, infinite_not_finite, Hi. }
  unfold denominator, det in Hz.
  rewrite not_finite_nonzero in Hz; [discriminate|].
  apply not_finite_sub_l, not_finite_mul_l, Hd.
Qed.

(** With a zero denominator, one of the first two checks fails. *)
Lemma zero_denominator_checks x1 y1 x2 y2 x3 y3 x4 y4 (n : number) :
  is_zero (denominator x1 y1 x2 y2 x3 y3 x4 y4) = true ->
  let x := (n / denominator x1 y1 x2 y2 x3 y3 x4 y4)%num in
  (min x1 x2 <=? x)%num && (max x1 x2 >=? x)%num = false.
Proof.
  intros Hz x.
  pose proof (zero_denominator_finite_abscissas _ _ _ _ _ _ _ _ Hz) as Hfin.
  pose proof (div_by_zero n _ Hz) as Hx. fold x in Hx.
  destruct x as [s|[]| |s m e]; try discriminate Hx.
  - destruct (min x1 x2 <=? S754_infinity true)%num eqn:Hmin;
      [|reflexivity].
    apply min_le_neg_infinity in Hmin. congruence.
  - destruct (max x1 x2 >=? S754_infinity false)%num eqn:Hmax;
      [|apply andb_false_r].
    apply max_ge_infinity in Hmax. congruence.
  - replace (min x1 x2 <=? S754_nan)%num with false; [reflexivity|].
    unfold le. destruct (min x1 x2); reflexivity.
Qed.

Lemma zero_denominator_false x1 y1 x2 y2 x3 y3 x4 y4 :
  is_zero (denominator x1 y1 x2 y2 x3 y3 x4 y4) = true ->
  lineIntersectsLine x1 y1 x2 y2 x3 y3 x4 y4 = false.
Proof.
  intros Hz. unfold lineIntersectsLine. cbv zeta.
  unfold intersection_x at 1 2. fold (denominator x1 y1 x2 y2 x3 y3 x4 y4).
  rewrite (zero_denominator_checks _ _ _ _ _ _ _ _ _ Hz). reflexivity.
Qed.

Lemma lineIntersectsLine_checks x1 y1 x2 y2 x3 y3 x4 y4 :
  lineIntersectsLine x1 y1 x2 y2 x3 y3 x4 y4
  = forallb id (box_checks x1 y1 x2 y2 x3 y3 x4 y4
                  (intersection_x x1 y1 x2 y2 x3 y3 x4 y4)
                  (intersection_y x1 y1 x2 y2 x3 y3 x4 y4)).
Proof.
  unfold lineIntersectsLine, box_checks. simpl. unfold id.
  rewrite andb_true_r, !andb_assoc. reflexivity.
Qed.

(** Reversing the first segment negates both determinants of the
    quotient. *)
Lemma denominator_reversed x1 y1 x2 y2 x3 y3 x4 y4 :
  same_value (denominator x2 y2 x1 y1 x3 y3 x4 y4)
             (neg (denominator x1 y1 x2 y2 x3 y3 x4 y4)).
Proof.
  unfold denominator, det.
  rewrite (sub_swap x1 x2), (sub_swap y1 y2), !neg_mul_l.
  apply sub_neg_neg.
Qed.

Lemma det_reversed x1 y1 x2 y2 :
  same_value (det x2 y2 x1 y1) (neg (det x1 y1 x2 y2)).
Proof.
  unfold det. rewrite (mul_comm x2 y1), (mul_comm y2 x1). apply sub_swap.
Qed.

Lemma numerator_reversed (d d' u u' c v : number) :
  same_value d' (neg d) -> same_value u' (neg u) ->
  same_value (det d' u' c v) (neg (det d u c v)).
Proof.
  intros Hd Hu. unfold det. rewrite Hd, Hu, !neg_mul_l.
  apply sub_neg_neg.
Qed.

Lemma quotient_reversed (n n' d d' : number) :
  is_zero d = false ->
  same_value n' (neg n) -> same_value d' (neg d) ->
  same_value (n' / d')%num (n / d)%num.
Proof.
  intros Hz Hn Hd.
  rewrite (same_value_nonzero (neg d) d') by (rewrite ?is_zero_neg; auto).
  rewrite <- (div_neg_neg n d). apply div_proper_l, Hn.
Qed.

(** Reversing the first segment leaves each check as it is, when the
    denominator is not zero. *)
Lemma intersection_x_reversed x1 y1 x2 y2 x3 y3 x4 y4 :
  is_zero (denominator x1 y1 x2 y2 x3 y3 x4 y4) = false ->
  same_value (intersection_x x2 y2 x1 y1 x3 y3 x4 y4)
             (intersection_x x1 y1 x2 y2 x3 y3 x4 y4).
Proof.
  intros Hz. unfold intersection_x.
  apply quotient_reversed; [exact Hz | | apply denominator_reversed].
  apply numerator_reversed; [apply det_reversed | apply sub_swap].
Qed.

Lemma intersection_y_reversed x1 y1 x2 y2 x3 y3 x4 y4 :
  is_zero (denominator x1 y1 x2 y2 x3 y3 x4 y4) = false ->
  same_value (intersection_y x2 y2 x1 y1 x3 y3 x4 y4)
             (intersection_y x1 y1 x2 y2 x3 y3 x4 y4).
Proof.
  intros Hz. unfold intersection_y.
  apply quotient_reversed; [exact Hz | | apply denominator_reversed].
  apply numerator_reversed; [apply det_reversed | apply sub_swap].
Qed.

Lemma lineIntersectsLine_reversed x1 y1 x2 y2 x3 y3 x4 y4 :
  lineIntersectsLine x2 y2 x1 y1 x3 y3 x4 y4
  = lineIntersectsLine x1 y1 x2 y2 x3 y3 x4 y4.
Proof.
  destruct (is_zero (denominator x1 y1 x2 y2 x3 y3 x4 y4)) eqn:Hz.
  - rewrite (zero_denominator_false x1 y1 x2 y2) by exact Hz.
    apply zero_denominator_false.
    rewrite (same_value_is_zero _ _ (denominator_reversed _ _ _ _ _ _ _ _)).
    rewrite is_zero_neg. exact Hz.
  - pose proof (intersection_x_reversed _ _ _ _ _ _ _ _ Hz) as Hx.
    pose proof (intersection_y_reversed _ _ _ _ _ _ _ _ Hz) as Hy.
    unfold lineIntersectsLine. cbv zeta.
    rewrite (min_comm x2 x1), (max_comm x2 x1),
      (min_comm y2 y1), (max_comm y2 y1).
    rewrite !(le_proper_r _ _ _ (same_value_sym _ _ Hx)),
      !(ge_proper_r _ _ _ (same_value_sym _ _ Hx)),
      !(le_proper_r _ _ _ (same_value_sym _ _ Hy)),
      !(ge_proper_r _ _ _ (same_value_sym _ _ Hy)).
    reflexivity.
Qed.

End Intersection.

(** C8. Reversing the cut segment never changes the answer of the
    intersection test, for all numbers (NaN, infinities and signed zeros
    included); hence the joins a cut selects do not depend on its
    direction. *)
Theorem intersection_symmetry :
  (forall A B C D : Point,
     lineIntersectsLine (x A) (y A) (x B) (y B) (x C) (y C) (x D) (y D)
     = lineIntersectsLine (x B) (y B) (x A) (y A) (x C) (y C) (x D) (y D)) /\
  (forall (A B : Point) (m : Model),
     joinsToRemove A B m = joinsToRemove B A m).
Proof.
  split.
  - intros A B C D. symmetry. apply lineIntersectsLine_reversed.
  - intros A B m. unfold joinsToRemove. apply filter_ext. intros join.
    destruct (heap m !! from join) as [f|]; [|reflexivity].
    destruct (heap m !! to join) as [t|]; [|reflexivity].
    symmetry. apply lineIntersectsLine_reversed.
Qed.

(** C9, as the specification states it, fails for the parallel segments
    (0,0)-(1,0) and (0,1)-(1,1), which have the same direction: the
    denominator is zero, but the computed abscissa is [-Infinity], not NaN,
    and two of the eight checks evaluate to true.  The test still returns
    false. *)
Lemma parallel_segments_infinite_abscissa :
  let x := intersection_x n0 n0 n1 n0 n0 n1 n1 n1 in
  let y := intersection_y n0 n0 n1 n0 n0 n1 n1 n1 in
  difference (mkPoint n0 n0) (mkPoint n1 n0)
  = difference (mkPoint n0 n1) (mkPoint n1 n1) /\
  is_zero (denominator n0 n0 n1 n0 n0 n1 n1 n1) = true /\
  x = S754_infinity true /\
  is_nan x = false /\
  y = NaN /\
  box_checks n0 n0 n1 n0 n0 n1 n1 n1 x y
  = [false; true; false; true; false; false; false; false] /\
  lineIntersectsLine n0 n0 n1 n0 n0 n1 n1 n1 = false.
Proof. vm_compute. repeat split; reflexivity. Qed.

(** Segments that are parallel over the integers need not give a zero
    denominator: the differences are rounded before they are multiplied. *)
Example parallel_segments_rounded_denominator :
  let a := 2 ^ 53 in
  (a - -1) * (3 - 0) - (1 - 0) * (3 * a - -3) = 0 /\
  denominator (of_Z a) n1 (of_Z (-1)) n0 (of_Z (3 * a)) (of_Z 3) (of_Z (-3)) n0
  = neg (of_Z 4).
Proof. vm_compute. split; reflexivity. Qed.

(** C9, amended.  Whenever the denominator evaluates to zero, each computed
    coordinate is NaN or infinite, one of the two checks of the abscissa
    against the first segment evaluates to false, and the test returns
    false. *)
Theorem zero_denominator_never_intersects x1 y1 x2 y2 x3 y3 x4 y4 :
  is_zero (denominator x1 y1 x2 y2 x3 y3 x4 y4) = true ->
  let x := intersection_x x1 y1 x2 y2 x3 y3 x4 y4 in
  let y := intersection_y x1 y1 x2 y2 x3 y3 x4 y4 in
  not_finite x = true /\
  not_finite y = true /\
  (min x1 x2 <=? x)%num && (max x1 x2 >=? x)%num = false /\
  In false (box_checks x1 y1 x2 y2 x3 y3 x4 y4 x y) /\
  lineIntersectsLine x1 y1 x2 y2 x3 y3 x4 y4 = false.
Proof.
  intros Hz x y.
  assert (Hc : (min x1 x2 <=? x)%num && (max x1 x2 >=? x)%num = false)
    by apply (zero_denominator_checks _ _ _ _ _ _ _ _ _ Hz).
  split; [apply div_by_zero, Hz|].
  split; [apply div_by_zero, Hz|].
  split; [exact Hc|].
  split; [|apply zero_denominator_false, Hz].
  unfold box_checks. apply andb_false_iff in Hc.
  destruct Hc as [-> | ->]; simpl; auto.
Qed.

Lemma zero_denominator_never_intersects_witness :
  is_zero (denominator n0 n0 n1 n0 n0 n1 n1 n1) = true /\
  not_finite (intersection_x n0 n0 n1 n0 n0 n1 n1 n1) = true /\
  not_finite (intersection_y n0 n0 n1 n0 n0 n1 n1 n1) = true /\
  lineIntersectsLine n0 n0 n1 n0 n0 n1 n1 n1 = false.
Proof.
  split; [reflexivity|].
  destruct (zero_denominator_never_intersects n0 n0 n1 n0 n0 n1 n1 n1)
    as (Hx & Hy & _ & _ & Hl); [reflexivity|].
  repeat split; assumption.
Defined.

(** * Further properties of the engine *)

(** ** Lengths *)

Section Lengths.

Lemma binary_round_aux_nonneg m e l :
  is_nan (binary_round_aux prec emax false m e l) = true \/
  (n0 <=? binary_round_aux prec emax false m e l)%num = true.
Proof.
  unfold binary_round_aux.
  destruct (shr_fexp prec emax m e l) as [mrs' e'].
  destruct (shr_fexp prec emax _ e' loc_Exact) as [mrs'' e''].
  destruct (shr_m mrs''); [right; reflexivity | | left; reflexivity].
  destruct (e'' <=? emax - prec); right; reflexivity.
Qed.

Lemma sqrt_nonneg a : is_nan (sqrt a) = true \/ (n0 <=? sqrt a)%num = true.
Proof.
  destruct a as [s|[]| |[] m e]; simpl; auto.
  unfold sqrt, SFsqrt.
  destruct (SFsqrt_core_binary prec emax (Z.pos m) e) as [[mz ez] lz].
  apply binary_round_aux_nonneg.
Qed.

Lemma neg_neg a : neg (neg a) = a.
Proof. destruct a as [[]|[]| |[] m e]; reflexivity. Qed.

Lemma square_reversed a b : same_value a (neg b) -> (a * a)%num = (b * b)%num.
Proof.
  intros [->|[Ha Hb]].
  - rewrite neg_mul_l, neg_mul_r. apply neg_neg.
  - destruct a as [sa| | |]; try discriminate Ha.
    destruct b as [sb| | |]; try discriminate Hb.
    destruct sa, sb; reflexivity.
Qed.

End Lengths.

(** X1. [pointLength] never returns a negative number: its result is NaN or
    at least 0. *)
Theorem pointLength_nonneg (p : Point) :
  is_nan (pointLength p) = true \/ (n0 <=? pointLength p)%num = true.
Proof. apply sqrt_nonneg. Qed.

(** X2. The length of a difference does not depend on the order of the two
    points: a join has the same rest length in both directions. *)
Theorem pointLength_difference_sym (p q : Point) :
  pointLength (difference p q) = pointLength (difference q p).
Proof.
  unfold pointLength, difference. simpl.
  rewrite (square_reversed (x p - x q)%num (x q - x p)%num) by apply sub_swap.
  rewrite (square_reversed (y p - y q)%num (y q - y p)%num) by apply sub_swap.
  reflexivity.
Qed.

(** ** More on the intersection test *)

Section IntersectionMore.

#[local] Existing Instances same_value_equiv neg_proper mul_proper sub_proper.

Lemma min_nan_l b : min NaN b = NaN.
Proof. reflexivity. Qed.

Lemma min_nan_r a : min a NaN = NaN.
Proof. destruct a; reflexivity. Qed.

Lemma max_nan_r a : max a NaN = NaN.
Proof. destruct a; reflexivity. Qed.

Lemma is_nan_eq a : is_nan a = true -> a = NaN.
Proof. destruct a; try discriminate; reflexivity. Qed.

Lemma forallb_id_false l : In false l -> forallb id l = false.
Proof.
  induction l as [|b l IH]; simpl; [tauto|].
  intros [->|Hin]; [reflexivity|]. rewrite IH by exact Hin. apply andb_false_r.
Qed.

(** Reversing the second segment negates numerators and denominator. *)
Lemma denominator_reversed_2 x1 y1 x2 y2 x3 y3 x4 y4 :
  same_value (denominator x1 y1 x2 y2 x4 y4 x3 y3)
             (neg (denominator x1 y1 x2 y2 x3 y3 x4 y4)).
Proof.
  unfold denominator, det.
  rewrite (sub_swap x3 x4), (sub_swap y3 y4), !neg_mul_r.
  apply sub_neg_neg.
Qed.

Lemma numerator_reversed_2 (d u c c' v v' : number) :
  same_value c' (neg c) -> same_value v' (neg v) ->
  same_value (det d u c' v') (neg (det d u c v)).
Proof.
  intros Hc Hv. unfold det. rewrite Hc, Hv, !neg_mul_r.
  apply sub_neg_neg.
Qed.

Lemma lineIntersectsLine_reversed_2 x1 y1 x2 y2 x3 y3 x4 y4 :
  lineIntersectsLine x1 y1 x2 y2 x4 y4 x3 y3
  = lineIntersectsLine x1 y1 x2 y2 x3 y3 x4 y4.
Proof.
  destruct (is_zero (denominator x1 y1 x2 y2 x3 y3 x4 y4)) eqn:Hz.
  - rewrite (zero_denominator_false x1 y1 x2 y2 x3 y3) by exact Hz.
    apply zero_denominator_false.
    rewrite (same_value_is_zero _ _ (denominator_reversed_2 _ _ _ _ _ _ _ _)).
    rewrite is_zero_neg. exact Hz.
  - assert (Hx : same_value (intersection_x x1 y1 x2 y2 x4 y4 x3 y3)
                            (intersection_x x1 y1 x2 y2 x3 y3 x4 y4)).
    { unfold intersection_x.
      apply quotient_reversed; [exact Hz | | apply denominator_reversed_2].
      apply numerator_reversed_2; [apply det_reversed | apply sub_swap]. }
    assert (Hy : same_value (intersection_y x1 y1 x2 y2 x4 y4 x3 y3)
                            (intersection_y x1 y1 x2 y2 x3 y3 x4 y4)).
    { unfold intersection_y.
      apply quotient_reversed; [exact Hz | | apply denominator_reversed_2].
      apply numerator_reversed_2; [apply det_reversed | apply sub_swap]. }
    unfold lineIntersectsLine. cbv zeta.
    rewrite (min_comm x4 x3), (max_comm x4 x3),
      (min_comm y4 y3), (max_comm y4 y3).
    rewrite !(le_proper_r _ _ _ (same_value_sym _ _ Hx)),
      !(ge_proper_r _ _ _ (same_value_sym _ _ Hx)),
      !(le_proper_r _ _ _ (same_value_sym _ _ Hy)),
      !(ge_proper_r _ _ _ (same_value_sym _ _ Hy)).
    reflexivity.
Qed.

(** Exchanging the two segments negates numerators and denominator too. *)
Lemma det_exchanged (a b c d : number) :
  same_value (det c d a b) (neg (det a b c d)).
Proof.
  unfold det. rewrite (mul_comm c b), (mul_comm d a). apply sub_swap.
Qed.

Lemma numerator_exchanged (d u c v : number) :
  same_value (det c v d u) (neg (det d u c v)).
Proof.
  unfold det. rewrite (mul_comm c u), (mul_comm v d). apply sub_swap.
Qed.

Lemma lineIntersectsLine_exchanged x1 y1 x2 y2 x3 y3 x4 y4 :
  lineIntersectsLine x3 y3 x4 y4 x1 y1 x2 y2
  = lineIntersectsLine x1 y1 x2 y2 x3 y3 x4 y4.
Proof.
  assert (Hd : same_value (denominator x3 y3 x4 y4 x1 y1 x2 y2)
                          (neg (denominator x1 y1 x2 y2 x3 y3 x4 y4)))
    by apply det_exchanged.
  destruct (is_zero (denominator x1 y1 x2 y2 x3 y3 x4 y4)) eqn:Hz.
  - rewrite (zero_denominator_false x1 y1 x2 y2 x3 y3) by exact Hz.
    apply zero_denominator_false.
    rewrite (same_value_is_zero _ _ Hd), is_zero_neg. exact Hz.
  - assert (Hx : same_value (intersection_x x3 y3 x4 y4 x1 y1 x2 y2)
                            (intersection_x x1 y1 x2 y2 x3 y3 x4 y4)).
    { unfold intersection_x.
      apply quotient_reversed; [exact Hz | | exact Hd].
      apply numerator_exchanged. }
    assert (Hy : same_value (intersection_y x3 y3 x4 y4 x1 y1 x2 y2)
                            (intersection_y x1 y1 x2 y2 x3 y3 x4 y4)).
    { unfold intersection_y.
      apply quotient_reversed; [exact Hz | | exact Hd].
      apply numerator_exchanged. }
    unfold lineIntersectsLine. cbv zeta.
    rewrite !(le_proper_r _ _ _ (same_value_sym _ _ Hx)),
      !(ge_proper_r _ _ _ (same_value_sym _ _ Hx)),
      !(le_proper_r _ _ _ (same_value_sym _ _ Hy)),
      !(ge_proper_r _ _ _ (same_value_sym _ _ Hy)).
    repeat match goal with
           | |- context [(?a <=? ?b)%num] => generalize (a <=? b)%num
           | |- context [(?a >=? ?b)%num] => generalize (a >=? b)%num
           end.
    intros [] [] [] [] [] [] [] []; reflexivity.
Qed.

End IntersectionMore.

(** X3. The intersection test does not depend on the direction of the
    second segment (the join), nor on which of the two segments comes
    first, for all numbers. *)
Theorem intersection_segment_symmetries (A B C D : Point) :
  lineIntersectsLine (x A) (y A) (x B) (y B) (x D) (y D) (x C) (y C)
  = lineIntersectsLine (x A) (y A) (x B) (y B) (x C) (y C) (x D) (y D) /\
  lineIntersectsLine (x C) (y C) (x D) (y D) (x A) (y A) (x B) (y B)
  = lineIntersectsLine (x A) (y A) (x B) (y B) (x C) (y C) (x D) (y D).
Proof.
  split; [apply lineIntersectsLine_reversed_2 | apply lineIntersectsLine_exchanged].
Qed.

(** X4. A segment with a NaN coordinate intersects nothing: as soon as one
    of the eight coordinates is NaN, the test returns false. *)
Theorem nan_coordinate_never_intersects x1 y1 x2 y2 x3 y3 x4 y4 :
  existsb is_nan [x1; y1; x2; y2; x3; y3; x4; y4] = true ->
  lineIntersectsLine x1 y1 x2 y2 x3 y3 x4 y4 = false.
Proof.
  intros Hnan. rewrite lineIntersectsLine_checks.
  apply forallb_id_false. unfold box_checks.
  set (cx := intersection_x x1 y1 x2 y2 x3 y3 x4 y4).
  set (cy := intersection_y x1 y1 x2 y2 x3 y3 x4 y4).
  assert (Hle : forall c, (NaN <=? c)%num = false) by reflexivity.
  simpl in Hnan.
  repeat (apply orb_true_iff in Hnan; destruct Hnan as [Hnan|Hnan]);
    try discriminate Hnan; apply is_nan_eq in Hnan; subst;
    rewrite ?min_nan_l, ?min_nan_r, ?Hle; simpl; auto 10.
Qed.

Lemma nan_coordinate_never_intersects_witness :
  existsb is_nan [n0; n0; n1; n1; n0; NaN; n1; n0] = true /\
  lineIntersectsLine n0 n0 n1 n1 n0 NaN n1 n0 = false.
Proof.
  split; [reflexivity|].
  apply (nan_coordinate_never_intersects n0 n0 n1 n1 n0 NaN n1 n0).
  reflexivity.
Defined.

(** ** What every join of a fresh grid satisfies *)

Section FreshJoins.
Variables width height : Z.

Lemma for_loop_invariant {S} (P : S -> Prop) (body : nat -> S -> result S) :
  (forall i s s', P s -> body i s = inr s' -> P s') ->
  forall count start s s',
    P s -> for_loop start count body s = inr s' -> P s'.
Proof.
  intros Hbody count.
  induction count as [|k IH]; intros start s s' Hs; simpl.
  - intros Heq. injection Heq as <-. exact Hs.
  - destruct (body start s) as [e|s1] eqn:Hb; cbn [bind]; [discriminate|].
    apply IH. eapply Hbody; eauto.
Qed.

Lemma pushJoin_made_from h f t js js' :
  made_from h js -> pushJoin h f t js = inr js' -> made_from h js'.
Proof.
  intros [Hid Hall]. unfold pushJoin, makeJoin.
  destruct f as [f|], t as [t|]; try discriminate.
  destruct (h !! f) as [pf|] eqn:Hf; [|discriminate].
  destruct (h !! t) as [pt|] eqn:Ht; [|discriminate].
  simpl. intros Heq. injection Heq as <-. split.
  - rewrite map_app, length_app, Hid. simpl.
    rewrite Nat.add_1_r, seq_S. reflexivity.
  - apply Forall_app. split; [exact Hall|].
    constructor; [|constructor]. exists pf, pt. simpl. auto.
Qed.

Lemma rowJoins_made_from h pts js js' :
  made_from h js -> rowJoins width height h pts js = inr js' -> made_from h js'.
Proof.
  unfold rowJoins. apply for_loop_invariant. intros r s s'.
  apply for_loop_invariant. clear s s'. intros c s s' Hs.
  destruct (pushJoin h _ _ s) as [e|s1] eqn:H1; cbn [bind]; [discriminate|].
  pose proof (pushJoin_made_from _ _ _ _ _ Hs H1) as Hs1.
  destruct (Z.of_nat r <? height - 1).
  - destruct (Nat.eqb ((r + c) mod 2) 1); apply pushJoin_made_from, Hs1.
  - intros Heq. injection Heq as <-. exact Hs1.
Qed.

Lemma columnJoins_made_from h pts js js' :
  made_from h js -> columnJoins width height h pts js = inr js' -> made_from h js'.
Proof.
  unfold columnJoins. apply for_loop_invariant. intros c s s'.
  apply for_loop_invariant. clear s s'. intros r s s' Hs.
  apply pushJoin_made_from, Hs.
Qed.

Lemma makeModel_made_from m :
  makeModel width height = inr m -> made_from (heap m) (joins m).
Proof.
  unfold makeModel. rewrite makePoints_spec, bind_ret. simpl fst. simpl snd.
  destruct (rowJoins _ _ _ _ []) as [e|rows] eqn:Hrows; cbn [bind]; [discriminate|].
  destruct (columnJoins _ _ _ _ rows) as [e|cols] eqn:Hcols; cbn [bind]; [discriminate|].
  intros Heq. injection Heq as <-. simpl.
  eapply columnJoins_made_from; [|exact Hcols].
  eapply rowJoins_made_from; [|exact Hrows].
  split; [reflexivity | constructor].
Qed.

End FreshJoins.

(** ** Well-formed topologies *)

Section WellFormed.

Lemma Forall_grid {A} (P : A -> Prop) (g : nat -> nat -> A) n k :
  (forall r c, (r < k)%nat -> (c < n)%nat -> P (g r c)) ->
  Forall P (flat_map (fun r => map (g r) (seq 0 n)) (seq 0 k)).
Proof.
  intros Hg. apply List.Forall_forall. intros a Ha.
  apply in_flat_map in Ha. destruct Ha as (r & Hr & Ha).
  apply in_map_iff in Ha. destruct Ha as (c & <- & Hc).
  apply in_seq in Hr. apply in_seq in Hc. apply Hg; lia.
Qed.

Lemma specifiedOrder_ends_ok W H : Forall (ends_ok (H * W)) (specifiedOrder W H).
Proof.
  unfold specifiedOrder. rewrite !Forall_app. repeat split.
  - apply Forall_grid. intros r c Hr Hc.
    unfold ends_ok, horizontal, idx; simpl. nia.
  - apply Forall_grid. intros r c Hr Hc.
    unfold ends_ok, shear, idx. destruct (Nat.odd (r + c)); simpl; nia.
  - apply (Forall_grid _ (fun c r => vertical W r c)). intros c r Hc Hr.
    unfold ends_ok, vertical, idx; simpl. nia.
Qed.

Lemma storedOrder_ends_ok W H : Forall (ends_ok (H * W)) (storedOrder W H).
Proof.
  eapply Permutation_Forall; [|apply specifiedOrder_ends_ok].
  symmetry. apply storedOrder_Permutation.
Qed.

Lemma makeModel_well_formed width height m :
  makeModel width height = inr m -> well_formed m.
Proof.
  intros Hm.
  destruct (makeModel_spec width height) as (m' & Hm' & Hheap & Hp & Hj).
  assert (m' = m) by congruence. subst m'.
  destruct (makeModel_made_from _ _ _ Hm) as [Hid _].
  unfold well_formed. rewrite Hp, Hheap, Hid, length_gridParticles.
  split; [apply seq_NoDup|].
  split; [apply List.Forall_forall; intros p Hin; apply in_seq in Hin; lia|].
  split; [apply seq_NoDup|].
  pose proof (storedOrder_ends_ok (Z.to_nat width) (Z.to_nat height)) as Hok.
  rewrite <- Hj in Hok. apply List.Forall_forall. intros j Hin.
  rewrite List.Forall_forall in Hok.
  destruct (Hok (ends j)) as (Hne & Hf & Ht); [apply in_map, Hin|].
  unfold join_ok. rewrite Hp. simpl in *.
  repeat split; [exact Hne | apply in_seq; lia | apply in_seq; lia].
Qed.

Lemma NoDup_map_filter {A B} (f : A -> B) (g : A -> bool) l :
  List.NoDup (map f l) -> List.NoDup (map f (List.filter g l)).
Proof.
  induction l as [|a l IH]; simpl; [auto|].
  intros Hnd. apply List.NoDup_cons_iff in Hnd. destruct Hnd as [Hnin Hnd].
  destruct (g a); simpl; [|auto].
  constructor; [|auto].
  intros Hin. apply Hnin. apply in_map_iff in Hin.
  destruct Hin as (b & Hb & Hin). apply filter_In in Hin.
  apply in_map_iff. exists b. tauto.
Qed.

Lemma Forall_filter_weaken {A} (P Q : A -> Prop) (g : A -> bool) l :
  (forall a, P a -> g a = true -> Q a) ->
  Forall P l -> Forall Q (List.filter g l).
Proof.
  intros HPQ Hall. apply List.Forall_forall. intros a Hin.
  apply filter_In in Hin. destruct Hin as [Hin Hg].
  rewrite List.Forall_forall in Hall. auto.
Qed.

Lemma heap_frame_length h h' : heap_frame h h' -> List.length h' = List.length h.
Proof. intros Hf. symmetry. eapply Forall2_length, Hf. Qed.

Lemma removeJoin_well_formed j m : well_formed m -> well_formed (removeJoin j m).
Proof.
  intros (Hp & Hl & Hid & Hok). unfold well_formed, join_ok.
  rewrite removeJoin_points. simpl.
  split; [exact Hp|]. split; [exact Hl|].
  split; [apply NoDup_map_filter, Hid|].
  eapply Forall_filter_weaken; [|exact Hok]. intros a Ha _. exact Ha.
Qed.

Lemma removeJoins_well_formed js m : well_formed m -> well_formed (removeJoins js m).
Proof.
  revert m. induction js as [|j js IH]; intros m Hm; simpl; [exact Hm|].
  apply IH, removeJoin_well_formed, Hm.
Qed.

Lemma removePoint_well_formed p m : well_formed m -> well_formed (removePoint p m).
Proof.
  intros (Hp & Hl & Hid & Hok). unfold well_formed, join_ok. simpl.
  split; [apply List.NoDup_filter, Hp|].
  split; [eapply Forall_filter_weaken; [|exact Hl]; intros a Ha _; exact Ha|].
  split; [apply NoDup_map_filter, Hid|].
  eapply Forall_filter_weaken; [|exact Hok].
  intros j (Hne & Hf & Ht) Hkeep.
  apply andb_true_iff in Hkeep. destruct Hkeep as [Hkf Hkt].
  apply negb_true_iff, Nat.eqb_neq in Hkf.
  apply negb_true_iff, Nat.eqb_neq in Hkt.
  repeat split; [exact Hne | |]; apply filter_In; split; auto;
    apply negb_true_iff, Nat.eqb_neq; auto.
Qed.

Lemma tick_well_formed deltaTime random m :
  well_formed m -> well_formed (tick deltaTime random m).
Proof.
  intros (Hp & Hl & Hid & Hok).
  pose proof (tick_heap_frame deltaTime random m) as Hframe.
  unfold well_formed, join_ok.
  rewrite (heap_frame_length _ _ Hframe). auto.
Qed.

Lemma perform_well_formed o m : well_formed m -> well_formed (perform o m).
Proof.
  destruct o; simpl.
  - apply tick_well_formed.
  - apply removeJoin_well_formed.
  - apply removePoint_well_formed.
  - unfold tear. destruct (_ <=? _)%num; [auto|]. apply removeJoins_well_formed.
Qed.

End WellFormed.

(** X5. For all integer dimensions [makeModel] returns a well-formed
    topology: the points are distinct objects of the store, the joins are
    distinct objects, and the two ends of every join are different points of
    the [points] array. *)
Theorem makeModel_returns_well_formed width height :
  exists m, makeModel width height = inr m /\ well_formed m.
Proof.
  destruct (makeModel_spec width height) as (m & Hm & _).
  exists m. split; [exact Hm|]. eapply makeModel_well_formed, Hm.
Qed.

(** X6. Every sequence of ticks, join removals, point removals and tears
    keeps a topology well formed: no join is ever left with an end outside
    the [points] array. *)
Theorem run_well_formed ops m : well_formed m -> well_formed (run ops m).
Proof.
  revert m. induction ops as [|o ops IH]; intros m Hm; simpl; [exact Hm|].
  apply IH, perform_well_formed, Hm.
Qed.

Lemma run_well_formed_witness :
  let ops := [ Tick n10 n0_5; RemovePoint 3;
               Tear (mkPoint n0_5 n0) (mkPoint n0_5 n2); Tick n0_1 n0 ] in
  well_formed (grid 2 2) /\ well_formed (run ops (grid 2 2)).
Proof.
  intros ops.
  assert (Hwf : well_formed (grid 2 2))
    by (apply (makeModel_well_formed 2 2); vm_compute; reflexivity).
  split; [exact Hwf|]. apply (run_well_formed ops (grid 2 2)), Hwf.
Defined.

(** X7. In the model [makeModel] returns, the joins are numbered in the
    order they were made, and the rest length of every join is the distance
    [pointLength (difference from to)] between its two ends at their initial
    positions. *)
Theorem makeModel_rest_lengths width height :
  exists m,
    makeModel width height = inr m /\
    map jid (joins m) = seq 0 (List.length (joins m)) /\
    Forall (fun j => exists pf pt : Particle,
              heap m !! from j = Some pf /\ heap m !! to j = Some pt /\
              length j = pointLength (difference (xy pf) (xy pt))) (joins m).
Proof.
  destruct (makeModel_spec width height) as (m & Hm & _).
  exists m. split; [exact Hm|]. apply (makeModel_made_from _ _ _ Hm).
Qed.

(** X8. [removePoint] takes the point out of the [points] array together
    with every join that has it as an end, and nothing else: the other
    points stay, and the joins that stay are exactly those not touching the
    point. *)
Theorem removePoint_cascade point m :
  ~ In point (points (removePoint point m)) /\
  joinsTouching point (removePoint point m) = [] /\
  (forall q, In q (points (removePoint point m)) <-> In q (points m) /\ q <> point) /\
  (forall j, In j (joins (removePoint point m))
             <-> In j (joins m) /\ from j <> point /\ to j <> point) /\
  heap (removePoint point m) = heap m.
Proof.
  assert (Hj : forall j, In j (joins (removePoint point m))
                         <-> In j (joins m) /\ from j <> point /\ to j <> point).
  { intros j. simpl. rewrite filter_In, andb_true_iff, !negb_true_iff, !Nat.eqb_neq.
    tauto. }
  assert (Hq : forall q, In q (points (removePoint point m))
                         <-> In q (points m) /\ q <> point).
  { intros q. simpl. rewrite filter_In, negb_true_iff, Nat.eqb_neq. tauto. }
  split; [intros Hin; apply Hq in Hin; tauto|].
  split; [|auto].
  unfold joinsTouching. apply filter_none. intros j Hin.
  apply Hj in Hin. destruct Hin as (_ & Hf & Ht).
  apply Nat.eqb_neq in Hf. apply Nat.eqb_neq in Ht. now rewrite Hf, Ht.
Qed.

(** ** Removing joins *)

Section RemoveJoins.

Lemma model_eta m : {| heap := heap m; points := points m; joins := joins m |} = m.
Proof. destruct m; reflexivity. Qed.

Lemma removeJoin_eq j m :
  removeJoin j m
  = {| heap := heap m; points := points m;
       joins := List.filter (fun each => negb (Nat.eqb (jid each) (jid j))) (joins m) |}.
Proof.
  unfold removeJoin. rewrite has_property_object. simpl.
  rewrite filter_all. reflexivity.
Qed.

Lemma filter_filter {A} (f g : A -> bool) l :
  List.filter f (List.filter g l) = List.filter (fun a => g a && f a) l.
Proof.
  induction l as [|a l IH]; simpl; [reflexivity|].
  destruct (g a); simpl; [destruct (f a)|]; now rewrite IH.
Qed.

Lemma removeJoins_eq js m :
  removeJoins js m
  = {| heap := heap m; points := points m;
       joins := List.filter (fun each => negb (inBatch js each)) (joins m) |}.
Proof.
  revert m. induction js as [|j js IH]; intros m.
  - simpl. rewrite filter_all. symmetry. apply model_eta.
  - change (removeJoins (j :: js) m) with (removeJoins js (removeJoin j m)).
    rewrite IH, removeJoin_eq. simpl. f_equal.
    rewrite filter_filter. apply filter_ext. intros each.
    rewrite negb_orb, (Nat.eqb_sym (jid j) (jid each)). reflexivity.
Qed.

Lemma filter_keeps_all {A} (g : A -> bool) l :
  (forall a, In a l -> g a = true) -> List.filter g l = l.
Proof.
  induction l as [|a l IH]; intros Hg; simpl; [reflexivity|].
  rewrite (Hg a) by (left; reflexivity). f_equal. apply IH.
  intros b Hb. apply Hg. right. exact Hb.
Qed.

(** With distinct identities, a join of the list is the only one with its
    identity. *)
Lemma jid_inj (l : list Join) j j' :
  List.NoDup (map jid l) -> In j l -> In j' l -> jid j' = jid j -> j' = j.
Proof.
  induction l as [|a l IH]; simpl; [tauto|].
  intros Hnd. apply List.NoDup_cons_iff in Hnd. destruct Hnd as [Hnin Hnd].
  intros [->|Hj] [->|Hj'] Heq; auto.
  - exfalso. apply Hnin. rewrite <- Heq. apply in_map, Hj'.
  - exfalso. apply Hnin. rewrite Heq. apply in_map, Hj.
Qed.

Lemma length_filter_remove (l : list Join) j :
  List.NoDup (map jid l) -> In j l ->
  (List.length (List.filter (fun each => negb (Nat.eqb (jid each) (jid j))) l) + 1
   = List.length l)%nat.
Proof.
  induction l as [|a l IH]; simpl; [tauto|].
  intros Hnd. apply List.NoDup_cons_iff in Hnd. destruct Hnd as [Hnin Hnd].
  intros [->|Hj].
  - rewrite Nat.eqb_refl. simpl. rewrite filter_keeps_all; [lia|].
    intros b Hb. apply negb_true_iff, Nat.eqb_neq. intros Heq.
    apply Hnin. rewrite <- Heq. apply in_map, Hb.
  - destruct (Nat.eqb_spec (jid a) (jid j)) as [Heq|Hne]; simpl.
    + exfalso. apply Hnin. rewrite Heq. apply in_map, Hj.
    + rewrite <- (IH Hnd Hj). lia.
Qed.

Lemma inBatch_filter (g : Join -> bool) (l : list Join) j :
  List.NoDup (map jid l) -> In j l -> inBatch (List.filter g l) j = g j.
Proof.
  intros Hnd Hj. unfold inBatch.
  destruct (g j) eqn:Hg.
  - apply existsb_exists. exists j. rewrite filter_In, Nat.eqb_refl. auto.
  - destruct (existsb _ _) eqn:He; [|reflexivity].
    apply existsb_exists in He. destruct He as (each & Hin & Heq).
    apply filter_In in Hin. destruct Hin as [Hin Hge].
    apply Nat.eqb_eq in Heq.
    rewrite (jid_inj l j each Hnd Hj Hin Heq) in Hge. congruence.
Qed.

End RemoveJoins.

Lemma inBatch_Permutation js js' j : js ≡ₚ js' -> inBatch js' j = inBatch js j.
Proof.
  unfold inBatch.
  induction 1 as [|a l l' _ IH|a c l|l1 l2 l3 _ IH1 _ IH2]; simpl.
  - reflexivity.
  - now rewrite IH.
  - rewrite !orb_assoc, (orb_comm (Nat.eqb (jid a) (jid j))). reflexivity.
  - now rewrite IH2.
Qed.

(** X9. Removing a batch of joins one after the other amounts to one
    filter: the joins whose identity is in the batch go, the others stay in
    their order, and neither the [points] array nor the store changes; the
    order of the batch does not matter. *)
Theorem removeJoins_is_filter js js' m :
  js ≡ₚ js' ->
  removeJoins js m
  = {| heap := heap m; points := points m;
       joins := List.filter (fun each => negb (inBatch js each)) (joins m) |} /\
  removeJoins js' m = removeJoins js m.
Proof.
  intros Hperm. split; [apply removeJoins_eq|].
  rewrite !removeJoins_eq. f_equal. apply filter_ext. intros each.
  now rewrite (inBatch_Permutation js js' each Hperm).
Qed.

Lemma removeJoins_is_filter_witness :
  let j1 := {| jid := 1; from := 1; to := 2; length := sqrt n2 |} in
  let j4 := {| jid := 4; from := 1; to := 3; length := n1 |} in
  [j1; j4] ≡ₚ [j4; j1] /\
  map jid (joins (removeJoins [j1; j4] (grid 2 2))) = [0; 2; 3]%nat /\
  removeJoins [j4; j1] (grid 2 2) = removeJoins [j1; j4] (grid 2 2).
Proof.
  intros j1 j4.
  assert (Hperm : [j1; j4] ≡ₚ [j4; j1]) by apply perm_swap.
  destruct (removeJoins_is_filter [j1; j4] [j4; j1] (grid 2 2) Hperm) as [Hf Heq].
  split; [exact Hperm|]. split; [|exact Heq].
  rewrite Hf. vm_compute. reflexivity.
Defined.

(** X10. When the joins are distinct objects, [removeJoin] of a stored
    join removes that join and no other. *)
Theorem removeJoin_removes_one j m :
  List.NoDup (map jid (joins m)) ->
  In j (joins m) ->
  (List.length (joins (removeJoin j m)) + 1 = List.length (joins m))%nat /\
  (forall j', In j' (joins (removeJoin j m)) <-> In j' (joins m) /\ j' <> j).
Proof.
  intros Hnd Hj. rewrite removeJoin_eq. simpl.
  split; [apply length_filter_remove; assumption|].
  intros j'. rewrite filter_In, negb_true_iff, Nat.eqb_neq.
  split; intros [Hin Hne]; split; auto.
  - intros ->. auto.
  - intros Heq. apply Hne. eapply jid_inj; eauto.
Qed.

Lemma removeJoin_removes_one_witness :
  let j := {| jid := 1; from := 1; to := 2; length := sqrt n2 |} in
  List.NoDup (map jid (joins (grid 2 2))) /\
  In j (joins (grid 2 2)) /\
  List.length (joins (removeJoin j (grid 2 2))) = 4%nat.
Proof.
  intros j.
  assert (Hnd : List.NoDup (map jid (joins (grid 2 2))))
    by (change (List.NoDup (seq 0 5)); apply seq_NoDup).
  assert (Hin : In j (joins (grid 2 2))) by (vm_compute; auto).
  destruct (removeJoin_removes_one j (grid 2 2) Hnd Hin) as [Hlen _].
  split; [exact Hnd|]. split; [exact Hin|].
  change (List.length (joins (grid 2 2))) with 5%nat in Hlen. lia.
Defined.

(** X11. When the joins are distinct objects and the drag is longer than
    0.01, a tear removes exactly the joins that cross the cut segment: the
    joins that stay are those that do not cross it, in their order, and
    afterwards no join crosses the cut. *)
Theorem tear_removes_crossing (a b : Point) m :
  List.NoDup (map jid (joins m)) ->
  (pointLength (difference b a) <=? n0_01)%num = false ->
  joins (tear a b m)
  = List.filter (fun j => negb (crosses (heap m) a b j)) (joins m) /\
  joinsToRemove a b (tear a b m) = [].
Proof.
  intros Hnd Hlong.
  assert (Hj : joins (tear a b m)
               = List.filter (fun j => negb (crosses (heap m) a b j)) (joins m)).
  { unfold tear. rewrite Hlong, removeJoins_eq. simpl.
    apply filter_ext_in. intros j Hin. f_equal.
    apply (inBatch_filter (crosses (heap m) a b)); assumption. }
  split; [exact Hj|].
  unfold joinsToRemove. fold (crosses (heap (tear a b m)) a b).
  rewrite Hj. unfold tear. rewrite Hlong, removeJoins_heap.
  apply filter_none. intros j Hin. apply filter_In in Hin.
  destruct Hin as [_ Hc]. apply negb_true_iff in Hc. exact Hc.
Qed.

Lemma tear_removes_crossing_witness :
  let a := mkPoint n0_5 (neg n0_5) in
  let b := mkPoint n0_5 n0_5 in
  List.NoDup (map jid (joins (grid 2 2))) /\
  (pointLength (difference b a) <=? n0_01)%num = false /\
  map jid (joins (tear a b (grid 2 2))) = [2; 3; 4]%nat /\
  joinsToRemove a b (tear a b (grid 2 2)) = [].
Proof.
  intros a b.
  assert (Hnd : List.NoDup (map jid (joins (grid 2 2))))
    by (change (List.NoDup (seq 0 5)); apply seq_NoDup).
  assert (Hlong : (pointLength (difference b a) <=? n0_01)%num = false)
    by (vm_compute; reflexivity).
  destruct (tear_removes_crossing a b (grid 2 2) Hnd Hlong) as [Hj Hnone].
  split; [exact Hnd|]. split; [exact Hlong|]. split; [|exact Hnone].
  rewrite Hj. vm_compute. reflexivity.
Defined.

(** ** More on [tick] *)

Section TickMore.

Lemma min_eq_if a b :
  is_nan a = false -> is_nan b = false -> is_zero a && is_zero b = false ->
  min a b = if (a <=? b)%num then a else b.
Proof. intros Ha Hb Hz. destruct a, b; try discriminate; reflexivity. Qed.

Lemma le_not_nan a b : (a <=? b)%num = true -> is_nan a = false /\ is_nan b = false.
Proof. destruct a, b; try discriminate; auto. Qed.

Lemma min_at_most a c : (a <=? c)%num = true -> is_zero c = false -> min a c = a.
Proof.
  intros Hle Hz. destruct (le_not_nan _ _ Hle) as [Ha Hc].
  rewrite min_eq_if, Hle; auto. rewrite Hz. apply andb_false_r.
Qed.

Lemma min_at_least a c : (c <=? a)%num = true -> is_zero c = false -> min a c = c.
Proof.
  intros Hle Hz. destruct (le_not_nan _ _ Hle) as [Hc Ha].
  rewrite min_eq_if; auto; [|rewrite Hz; apply andb_false_r].
  destruct (a <=? c)%num eqn:Hac; [|reflexivity].
  destruct (le_antisym a c Hac Hle) as [->|[_ Hzc]]; [reflexivity | congruence].
Qed.

Lemma fold_left_ext {A B} (f g : A -> B -> A) l a :
  (forall a b, f a b = g a b) -> fold_left f l a = fold_left g l a.
Proof.
  intros Hfg. revert a. induction l as [|b l IH]; intros a; simpl; [reflexivity|].
  now rewrite Hfg, IH.
Qed.

Lemma integrate_square force d d' h particle :
  (d * d)%num = (d' * d')%num ->
  integrate force d h particle = integrate force d' h particle.
Proof. intros Hd. unfold integrate. rewrite Hd. reflexivity. Qed.

Lemma integrate_other force d (h : list Particle) particle k :
  k <> particle -> integrate force d h particle !! k = h !! k.
Proof.
  intros Hk. unfold integrate.
  destruct (h !! particle) as [p|]; [|reflexivity].
  destruct (isFixed p); [reflexivity|].
  apply list_lookup_insert_ne. auto.
Qed.

Lemma integrate_at force d (h : list Particle) particle (p : Particle) :
  h !! particle = Some p ->
  integrate force d h particle !! particle
  = Some (if isFixed p then p else verlet force d p).
Proof.
  intros Hp. unfold integrate. rewrite Hp.
  destruct (isFixed p) eqn:Hfix; [exact Hp|].
  rewrite list_lookup_insert_eq by (eapply lookup_lt_Some; eauto).
  unfold verlet, set_prev, set_xy. simpl. rewrite Hfix. reflexivity.
Qed.

Lemma integrate_all_other force d pts (h : list Particle) k :
  ~ In k pts -> fold_left (integrate force d) pts h !! k = h !! k.
Proof.
  revert h. induction pts as [|a pts IH]; intros h Hk; simpl; [reflexivity|].
  rewrite IH by (intros Hin; apply Hk; right; exact Hin).
  apply integrate_other. intros ->. apply Hk. left. reflexivity.
Qed.

Lemma integrate_all_at force d pts (h : list Particle) k (p : Particle) :
  List.NoDup pts -> In k pts -> h !! k = Some p ->
  fold_left (integrate force d) pts h !! k
  = Some (if isFixed p then p else verlet force d p).
Proof.
  revert h. induction pts as [|a pts IH]; intros h Hnd Hin Hp; simpl; [destruct Hin|].
  apply List.NoDup_cons_iff in Hnd. destruct Hnd as [Hnin Hnd].
  destruct Hin as [->|Hin].
  - rewrite integrate_all_other by exact Hnin. apply integrate_at, Hp.
  - apply IH; auto. rewrite integrate_other; [exact Hp|].
    intros ->. auto.
Qed.

Lemma relaxJoin_other (h : list Particle) join k :
  k <> from join -> k <> to join -> relaxJoin h join !! k = h !! k.
Proof.
  intros Hf Ht. unfold relaxJoin.
  destruct (h !! from join) as [pf|]; [|reflexivity].
  destruct (h !! to join) as [pt|]; [|reflexivity].
  cbv zeta.
  match goal with |- (match ?h1 !! _ with _ => _ end) !! _ = _ =>
    assert (H1 : h1 !! k = h !! k); [|set (h1' := h1) in *] end.
  { destruct (negb (isFixed pf)); [|reflexivity].
    apply list_lookup_insert_ne. auto. }
  destruct (h1' !! to join) as [pt'|]; [|exact H1].
  destruct (negb (isFixed pt')); [|exact H1].
  rewrite list_lookup_insert_ne by auto. exact H1.
Qed.

Lemma relaxAll_other js (h : list Particle) k :
  Forall (fun j => k <> from j /\ k <> to j) js ->
  relaxAll js h !! k = h !! k.
Proof.
  unfold relaxAll. intros Hall. revert h.
  induction Hall as [|j js [Hf Ht] _ IH]; intros h; simpl; [reflexivity|].
  rewrite IH. apply relaxJoin_other; assumption.
Qed.

Lemma joinsTouching_nil k m :
  joinsTouching k m = [] -> Forall (fun j => k <> from j /\ k <> to j) (joins m).
Proof.
  unfold joinsTouching. intros Hnil. apply List.Forall_forall. intros j Hin.
  destruct (Nat.eqb (from j) k || Nat.eqb (to j) k) eqn:Htouch.
  - assert (Hj : In j (List.filter (fun j => Nat.eqb (from j) k || Nat.eqb (to j) k)
                         (joins m))) by (apply filter_In; auto).
    rewrite Hnil in Hj. destruct Hj.
  - apply orb_false_iff in Htouch. destruct Htouch as [Hf Ht].
    apply Nat.eqb_neq in Hf. apply Nat.eqb_neq in Ht. auto.
Qed.

End TickMore.

(** X12. The clamp in general: every step of at least 1/30 behaves as a
    step of exactly 1/30. *)
Theorem tick_clamps_above deltaTime random m :
  ((n1 / n30) <=? deltaTime)%num = true ->
  tick deltaTime random m = tick (n1 / n30)%num random m.
Proof.
  intros Hle. unfold tick.
  rewrite (min_at_least deltaTime (n1 / n30)%num Hle) by reflexivity.
  replace (min (n1 / n30)%num (n1 / n30)%num) with (n1 / n30)%num
    by (vm_compute; reflexivity).
  reflexivity.
Qed.

Lemma tick_clamps_above_witness :
  ((n1 / n30) <=? of_Z 16)%num = true /\
  tick (of_Z 16) n0_5 (grid 2 2) = tick (n1 / n30)%num n0_5 (grid 2 2).
Proof.
  split; [reflexivity|].
  apply (tick_clamps_above (of_Z 16) n0_5 (grid 2 2)). reflexivity.
Defined.

(** X13. Below the clamp the step enters only through its square: a
    negative step moves the points exactly as the positive step of the same
    size. *)
Theorem tick_negative_step deltaTime random m :
  (deltaTime <=? (n1 / n30))%num = true ->
  (neg deltaTime <=? (n1 / n30))%num = true ->
  tick (neg deltaTime) random m = tick deltaTime random m.
Proof.
  intros Hle Hle'. unfold tick.
  rewrite (min_at_most deltaTime _ Hle), (min_at_most (neg deltaTime) _ Hle')
    by reflexivity.
  set (force := {| x := (random * n0_1)%num; y := n0_8 |}).
  rewrite (fold_left_ext (integrate force (neg deltaTime))
             (integrate force deltaTime)); [reflexivity|].
  intros h p. apply integrate_square.
  rewrite neg_mul_l, neg_mul_r. apply neg_neg.
Qed.

Lemma tick_negative_step_witness :
  (n0_01 <=? (n1 / n30))%num = true /\
  (neg n0_01 <=? (n1 / n30))%num = true /\
  tick (neg n0_01) n0_5 (grid 2 2) = tick n0_01 n0_5 (grid 2 2).
Proof.
  split; [reflexivity|]. split; [reflexivity|].
  apply (tick_negative_step n0_01 n0_5 (grid 2 2)); reflexivity.
Defined.

(** X14. A point that no join uses (for instance a point whose joins have
    all been torn) falls freely: if it is listed once in [points], one
    [tick] replaces its position by
    [2 * position - previous + force * dt * dt], with [dt] the clamped step
    and [force = (random * 0.1, 0.8)], and its previous position by its old
    position; if it is fixed it stays. *)
Theorem tick_free_fall deltaTime random m i (p : Particle) :
  List.NoDup (points m) ->
  In i (points m) ->
  joinsTouching i m = [] ->
  heap m !! i = Some p ->
  let dt := min deltaTime (n1 / n30)%num in
  let force := {| x := (random * n0_1)%num; y := n0_8 |} in
  heap (tick deltaTime random m) !! i
  = Some (if isFixed p then p else verlet force dt p).
Proof.
  intros Hnd Hin Hfree Hp dt force. unfold tick. simpl.
  pose proof (joinsTouching_nil i m Hfree) as Hall.
  rewrite !relaxAll_other by exact Hall.
  apply integrate_all_at; assumption.
Qed.

Lemma tick_free_fall_witness :
  let m := removeJoins (joinsTouching 3 (grid 2 2)) (grid 2 2) in
  let p := {| xy := {| x := n1; y := n1 |}; px := n1; py := n1; isFixed := false |} in
  List.NoDup (points m) /\ In 3%nat (points m) /\ joinsTouching 3 m = [] /\
  heap m !! 3%nat = Some p /\
  heap (tick n10 n0 m) !! 3%nat
  = Some (verlet {| x := (n0 * n0_1)%num; y := n0_8 |} (n1 / n30)%num p).
Proof.
  intros m p.
  assert (Hnd : List.NoDup (points m))
    by (change (List.NoDup (seq 0 4)); apply seq_NoDup).
  assert (Hin : In 3%nat (points m)) by (vm_compute; auto).
  assert (Hfree : joinsTouching 3 m = []) by (vm_compute; reflexivity).
  assert (Hp : heap m !! 3%nat = Some p) by (vm_compute; reflexivity).
  repeat (split; [assumption|]).
  etransitivity; [apply (tick_free_fall n10 n0 m 3%nat p Hnd Hin Hfree Hp)|].
  vm_compute. reflexivity.
Defined.

(** ** The pointer handler and the frame loop *)

Section Pointer.

Lemma handle_ok e hd m :
  handler_ok hd ->
  exists hd' m',
    handle e (hd, m) = inr (hd', m') /\ handler_ok hd' /\
    heap m' = heap m /\ points m' = points m /\
    (forall j, In j (joins m') -> In j (joins m)).
Proof.
  intros Hok. destruct e as [tx|tx|]; simpl.
  - eexists _, m. split; [reflexivity|]. repeat split; auto.
    intros _. discriminate.
  - destruct (isDragging hd) eqn:Hdrag.
    + destruct (prevPoint hd) as [prev|] eqn:Hprev; [|exfalso; apply Hok; auto].
      destruct (_ <=? _)%num.
      * exists hd, m. repeat split; auto.
      * eexists _, _. split; [reflexivity|].
        rewrite removeJoins_eq. simpl. repeat split; auto.
        -- intros _. discriminate.
        -- intros j Hin. apply filter_In in Hin. tauto.
    + exists hd, m. repeat split; auto.
  - eexists _, m. split; [reflexivity|]. repeat split; auto.
    intros Hd. discriminate Hd.
Qed.

Lemma handle_all_ok es hd m :
  handler_ok hd ->
  exists hd' m',
    handle_all es (hd, m) = inr (hd', m') /\
    heap m' = heap m /\ points m' = points m /\
    (forall j, In j (joins m') -> In j (joins m)).
Proof.
  revert hd m. induction es as [|e es IH]; intros hd m Hok.
  - exists hd, m. repeat split; auto.
  - destruct (handle_ok e hd m Hok) as (hd1 & m1 & He & Hok1 & Hh & Hp & Hj).
    destruct (IH hd1 m1 Hok1) as (hd2 & m2 & Hes & Hh2 & Hp2 & Hj2).
    exists hd2, m2. cbn [handle_all]. rewrite He. cbn [bind].
    split; [exact Hes|]. repeat split; try congruence. auto.
Qed.

Lemma sub_diag_finite a :
  is_nan a = false -> is_infinite a = false -> (a - a)%num = n0.
Proof.
  destruct a as [[]|s| |s m e]; try discriminate; intros _ _; try reflexivity.
  unfold sub, SFsub. cbv zeta. rewrite Z.sub_diag. reflexivity.
Qed.

End Pointer.

(** X15. From its initial state the pointer handler never throws, whatever
    the sequence of pointer events: the previous point is always defined
    when a move is handled while dragging.  Pointer events never touch the
    store nor the [points] array, and never add a join. *)
Theorem pointer_events_never_throw es m :
  exists hd' m',
    handle_all es (initial_handler, m) = inr (hd', m') /\
    heap m' = heap m /\ points m' = points m /\
    (forall j, In j (joins m') -> In j (joins m)).
Proof. apply handle_all_ok. intros Hd. discriminate Hd. Qed.

(** X16. While the pointer is up, moving it tears nothing: from a state that
    is not dragging, a sequence of events without a pointer-down leaves the
    model as it is and the handler not dragging. *)
Theorem pointer_up_moves_do_nothing es hd m :
  isDragging hd = false ->
  forallb (fun e => negb (isPointerDown e)) es = true ->
  exists hd',
    handle_all es (hd, m) = inr (hd', m) /\ isDragging hd' = false.
Proof.
  revert hd. induction es as [|e es IH]; intros hd Hup Hes.
  - exists hd. auto.
  - simpl in Hes. apply andb_true_iff in Hes. destruct Hes as [He Hes].
    destruct e as [tx|tx|]; [discriminate He| |]; cbn [handle_all handle].
    + rewrite Hup. cbn [bind ret]. apply IH; assumption.
    + cbn [bind ret]. apply IH; [reflexivity | assumption].
Qed.

Lemma pointer_up_moves_do_nothing_witness :
  let es := [ PointerMove (mkPoint n0_5 (neg n0_5)); PointerUp;
              PointerMove (mkPoint n0_5 n0_5) ] in
  isDragging initial_handler = false /\
  forallb (fun e => negb (isPointerDown e)) es = true /\
  exists hd',
    handle_all es (initial_handler, grid 2 2) = inr (hd', grid 2 2) /\
    isDragging hd' = false.
Proof.
  intros es. split; [reflexivity|]. split; [reflexivity|].
  apply (pointer_up_moves_do_nothing es initial_handler (grid 2 2)); reflexivity.
Defined.

(** X17. The first frame steps by zero: for a finite time stamp, the first
    call of [frame] runs [tick(0)] and stores the time stamp. *)
Theorem first_frame_steps_by_zero now random m :
  is_nan now = false -> is_infinite now = false ->
  frame now random (None, m) = (Some now, tick n0 random m).
Proof.
  intros Hnan Hinf. unfold frame. simpl.
  rewrite sub_diag_finite by assumption. reflexivity.
Qed.

Lemma first_frame_steps_by_zero_witness :
  is_nan (of_Z 1000) = false /\ is_infinite (of_Z 1000) = false /\
  frame (of_Z 1000) n0_5 (None, grid 2 2)
  = (Some (of_Z 1000), tick n0 n0_5 (grid 2 2)).
Proof.
  split; [reflexivity|]. split; [reflexivity|].
  apply (first_frame_steps_by_zero (of_Z 1000) n0_5 (grid 2 2)); reflexivity.
Defined.

(** ** Degenerate and regular grids *)

Section Grids.

Lemma flat_map_nil {A B} (l : list A) : flat_map (fun _ => @nil B) l = [].
Proof. induction l as [|a l IH]; simpl; auto. Qed.

Lemma storedOrder_empty W H : (W = 0 \/ H = 0)%nat -> storedOrder W H = [].
Proof.
  unfold storedOrder, verticalJoins. intros [-> | ->]; simpl.
  - rewrite flat_map_nil. reflexivity.
  - apply flat_map_nil.
Qed.

Lemma gridParticles_empty width height :
  width <= 0 \/ height <= 0 -> gridParticles width height = [].
Proof.
  unfold gridParticles. intros [Hw|Hh].
  - replace (Z.to_nat width) with 0%nat by lia. simpl. apply flat_map_nil.
  - replace (Z.to_nat height) with 0%nat by lia. reflexivity.
Qed.

Lemma third_check_nan x1 y1 x2 y2 y3 x4 y4 :
  lineIntersectsLine x1 y1 x2 y2 NaN y3 x4 y4 = false.
Proof.
  rewrite lineIntersectsLine_checks. apply forallb_id_false.
  unfold box_checks. rewrite min_nan_l.
  change (NaN <=? ?c)%num with false. simpl. auto.
Qed.

Lemma gridParticles_one_column height :
  Forall (fun p : Particle => x p = NaN) (gridParticles 1 height).
Proof.
  unfold gridParticles. apply Forall_grid. intros r c _ Hc.
  assert (c = 0)%nat by (change (Z.to_nat 1) with 1%nat in Hc; lia). subst c.
  reflexivity.
Qed.

Lemma joinCount_from (js : list Join) point n :
  fold_left (fun count join =>
               if Nat.eqb (from join) point || Nat.eqb (to join) point
               then (count + 1)%nat else count) js n
  = (n + List.length (List.filter (fun j => Nat.eqb (from j) point
                                            || Nat.eqb (to j) point) js))%nat.
Proof.
  revert n. induction js as [|j js IH]; intros n; simpl; [lia|].
  rewrite IH. destruct (Nat.eqb (from j) point || Nat.eqb (to j) point); simpl; lia.
Qed.

End Grids.

(** X18. With a non-positive dimension [makeModel] returns the empty
    topology: no object, no point, no join. *)
Theorem makeModel_nonpositive width height :
  width <= 0 \/ height <= 0 ->
  makeModel width height = inr empty_model.
Proof.
  intros Hdim.
  destruct (makeModel_spec width height) as (m & Hm & Hheap & Hp & Hj).
  rewrite Hm. f_equal. destruct m as [h pts js]. simpl in *.
  rewrite gridParticles_empty in Hheap by exact Hdim.
  rewrite storedOrder_empty in Hj by lia.
  replace (Z.to_nat height * Z.to_nat width)%nat with 0%nat in Hp by nia.
  apply map_eq_nil in Hj. subst. reflexivity.
Qed.

Lemma makeModel_nonpositive_witness :
  (0 <= 0 \/ 5 <= 0) /\ makeModel 0 5 = inr empty_model.
Proof.
  split; [left; lia|]. apply (makeModel_nonpositive 0 5). left. lia.
Defined.

(** X19. The layout of a fresh grid: the point of row [r] and column [c]
    is object [r * width + c], which is what [pointByPosition] returns; it
    sits at [(c * 1 / (width - 1), r * 1 / (height - 1))], its previous
    position is its position (no initial velocity), and it is fixed exactly
    when [r] is 0. *)
Theorem makeModel_layout width height r c :
  (r < Z.to_nat height)%nat -> (c < Z.to_nat width)%nat ->
  exists m,
    makeModel width height = inr m /\
    pointByPosition width (points m) r c = Some (idx (Z.to_nat width) r c) /\
    let px := (of_Z (Z.of_nat c) * n1 / (of_Z width - n1))%num in
    let py := (of_Z (Z.of_nat r) * n1 / (of_Z height - n1))%num in
    heap m !! idx (Z.to_nat width) r c
    = Some {| xy := {| x := px; y := py |}; px := px; py := py;
              isFixed := Nat.eqb r 0 |}.
Proof.
  intros Hr Hc.
  destruct (makeModel_spec width height) as (m & Hm & Hheap & Hp & _).
  exists m. split; [exact Hm|]. split.
  - rewrite Hp, <- length_gridParticles. apply pointByPosition_grid; assumption.
  - rewrite Hheap. apply lookup_gridParticles; assumption.
Qed.

Lemma makeModel_layout_witness :
  (2 < Z.to_nat 3)%nat /\ (1 < Z.to_nat 3)%nat /\
  exists m,
    makeModel 3 3 = inr m /\
    pointByPosition 3 (points m) 2 1 = Some 7%nat /\
    heap m !! 7%nat
    = Some {| xy := {| x := n0_5; y := n1 |}; px := n0_5; py := n1;
              isFixed := false |}.
Proof.
  assert (H2 : (2 < Z.to_nat 3)%nat) by (vm_compute; lia).
  assert (H1 : (1 < Z.to_nat 3)%nat) by (vm_compute; lia).
  split; [exact H2|]. split; [exact H1|].
  destruct (makeModel_layout 3 3 2 1 H2 H1) as (m & Hm & Hpt & Hheap).
  exists m. split; [exact Hm|]. split; [exact Hpt|].
  etransitivity; [exact Hheap|]. vm_compute. reflexivity.
Defined.

(** X20. A grid of one column cannot be torn: all its abscissas are NaN
    (0/0), so no cut segment selects any of its joins. *)
Theorem one_column_grid_untearable height (a b : Point) :
  exists m,
    makeModel 1 height = inr m /\
    Forall (fun p : Particle => x p = NaN) (heap m) /\
    joinsToRemove a b m = [].
Proof.
  destruct (makeModel_spec 1 height) as (m & Hm & Hheap & _).
  pose proof (gridParticles_one_column height) as Hnan.
  rewrite <- Hheap in Hnan.
  exists m. split; [exact Hm|]. split; [exact Hnan|].
  unfold joinsToRemove. apply filter_none. intros j _.
  destruct (heap m !! from j) as [f|] eqn:Hf; [|reflexivity].
  destruct (heap m !! to j) as [t|]; [|reflexivity].
  rewrite List.Forall_forall in Hnan.
  rewrite (Hnan f) by (apply list_elem_of_In; eapply list_elem_of_lookup_2, Hf).
  apply third_check_nan.
Qed.

(** X21. The count [removeJoin] computes with [reduce] is the number of
    joins that touch the point. *)
Theorem joinCount_is_touching point m :
  joinCount (joins m) point = List.length (joinsTouching point m).
Proof. unfold joinCount, joinsTouching. rewrite joinCount_from. reflexivity. Qed.

(** X22. Removals commute: two points can be removed in either order, and
    so can a point and a join. *)
Theorem removals_commute p q j m :
  removePoint p (removePoint q m) = removePoint q (removePoint p m) /\
  removeJoin j (removePoint p m) = removePoint p (removeJoin j m).
Proof.
  split.
  - unfold removePoint. simpl. rewrite !filter_filter. f_equal.
    + apply filter_ext. intros each. apply andb_comm.
    + apply filter_ext. intros each. apply andb_comm.
  - rewrite !removeJoin_eq. unfold removePoint. simpl.
    rewrite !filter_filter. f_equal.
    apply filter_ext. intros each. apply andb_comm.
Qed.

(** ** Bounding boxes *)

Section Boxes.

Lemma le_trans a b c :
  (a <=? b)%num = true -> (b <=? c)%num = true -> (a <=? c)%num = true.
Proof.
  unfold le.
  destruct a as [sa|sa| |sa ma ea], b as [sb|sb| |sb mb eb],
           c as [sc|sc| |sc mc ec]; simpl;
    try discriminate; try reflexivity;
    try (destruct sa; try discriminate; try reflexivity);
    try (destruct sb; try discriminate; try reflexivity);
    try (destruct sc; try discriminate; try reflexivity).
  all: change (Pos.compare_cont Eq) with Pos.compare.
  all: destruct (Z.compare_spec ea eb), (Z.compare_spec eb ec),
         (Z.compare_spec ea ec); simpl;
       try discriminate; try reflexivity; try lia.
  all: destruct (Pos.compare_spec ma mb), (Pos.compare_spec mb mc),
         (Pos.compare_spec ma mc); simpl;
       try discriminate; try reflexivity; try lia.
Qed.

Lemma boxes_apart (lo hi v : number) :
  (lo <=? hi)%num = false -> (lo <=? v)%num && (hi >=? v)%num = false.
Proof.
  intros Hapart. rewrite ge_le.
  destruct (lo <=? v)%num eqn:H1; [|reflexivity].
  destruct (v <=? hi)%num eqn:H2; [|reflexivity].
  rewrite (le_trans lo v hi H1 H2) in Hapart. discriminate.
Qed.

End Boxes.

(** X23. Segments whose bounding boxes are apart never intersect: if, in
    [x] or in [y], the low end of one segment's range is not at or below the
    high end of the other's, the test returns false. *)
Theorem disjoint_boxes_never_intersect x1 y1 x2 y2 x3 y3 x4 y4 :
  (min x3 x4 <=? max x1 x2)%num && (min x1 x2 <=? max x3 x4)%num &&
  (min y3 y4 <=? max y1 y2)%num && (min y1 y2 <=? max y3 y4)%num = false ->
  lineIntersectsLine x1 y1 x2 y2 x3 y3 x4 y4 = false.
Proof.
  intros Hapart. unfold lineIntersectsLine. cbv zeta.
  set (cx := intersection_x x1 y1 x2 y2 x3 y3 x4 y4).
  set (cy := intersection_y x1 y1 x2 y2 x3 y3 x4 y4).
  repeat (apply andb_false_iff in Hapart; destruct Hapart as [Hapart|Hapart]).
  - pose proof (boxes_apart _ _ cx Hapart) as Hb.
    apply andb_false_iff in Hb. destruct Hb as [-> | ->];
      rewrite ?andb_false_r; reflexivity.
  - pose proof (boxes_apart _ _ cx Hapart) as Hb.
    apply andb_false_iff in Hb. destruct Hb as [-> | ->];
      rewrite ?andb_false_r; reflexivity.
  - pose proof (boxes_apart _ _ cy Hapart) as Hb.
    apply andb_false_iff in Hb. destruct Hb as [-> | ->];
      rewrite ?andb_false_r; reflexivity.
  - pose proof (boxes_apart _ _ cy Hapart) as Hb.
    apply andb_false_iff in Hb. destruct Hb as [-> | ->];
      rewrite ?andb_false_r; reflexivity.
Qed.

Lemma disjoint_boxes_never_intersect_witness :
  (min n2 (of_Z 3) <=? max n0 n1)%num && (min n0 n1 <=? max n2 (of_Z 3))%num &&
  (min n0 n1 <=? max n0 n1)%num && (min n0 n1 <=? max n0 n1)%num = false /\
  lineIntersectsLine n0 n0 n1 n1 n2 n0 (of_Z 3) n1 = false.
Proof.
  split; [reflexivity|].
  apply (disjoint_boxes_never_intersect n0 n0 n1 n1 n2 n0 (of_Z 3) n1).
  reflexivity.
Defined.
